(** * rtm: request signing, URL construction and the response envelope

    A shallow embedding of [client.go] (package [rtm], a client for the
    Remember The Milk API v2) together with the properties of its
    signing scheme, its two request builders and its envelope parser.

    Go strings and byte slices are sequences of bytes: both are [string]
    here (a list of 8-bit [ascii]), and a nil byte slice is the empty
    string.  [url.Values] is [map[string][]string]: a [gmap] from
    strings to lists of strings.  Ranging over a Go map visits the keys
    in an unspecified order; the functions below that range over a map
    take the order as an argument (a suffix [_from]) and are shown not
    to depend on it. *)

From Stdlib Require Import ZArith Ascii String List.
From stdpp Require Import gmap strings list fin_maps sorting pretty.

Local Open Scope Z_scope.

Abbreviation Values := (gmap string (list string)).
Abbreviation Args := (gmap string string).

(** ** The Go standard library functions used by [sign] *)

(** [crypto/md5]: the MD5 message digest of RFC 1321 over 32-bit words,
    kept in [Z] with the wrap-around written out. *)
Module md5.

Definition w32 (x : Z) : Z := x mod 2 ^ 32.

Definition add32 (x y : Z) : Z := w32 (x + y).

Definition not32 (x : Z) : Z := Z.lxor x 0xffffffff.

Definition rotl32 (x : Z) (n : Z) : Z :=
  Z.lor (w32 (Z.shiftl x n)) (Z.shiftr x (32 - n)).

Definition table : list Z :=
  [ 0xd76aa478; 0xe8c7b756; 0x242070db; 0xc1bdceee;
    0xf57c0faf; 0x4787c62a; 0xa8304613; 0xfd469501;
    0x698098d8; 0x8b44f7af; 0xffff5bb1; 0x895cd7be;
    0x6b901122; 0xfd987193; 0xa679438e; 0x49b40821;
    0xf61e2562; 0xc040b340; 0x265e5a51; 0xe9b6c7aa;
    0xd62f105d; 0x02441453; 0xd8a1e681; 0xe7d3fbc8;
    0x21e1cde6; 0xc33707d6; 0xf4d50d87; 0x455a14ed;
    0xa9e3e905; 0xfcefa3f8; 0x676f02d9; 0x8d2a4c8a;
    0xfffa3942; 0x8771f681; 0x6d9d6122; 0xfde5380c;
    0xa4beea44; 0x4bdecfa9; 0xf6bb4b60; 0xbebfbc70;
    0x289b7ec6; 0xeaa127fa; 0xd4ef3085; 0x04881d05;
    0xd9d4d039; 0xe6db99e5; 0x1fa27cf8; 0xc4ac5665;
    0xf4292244; 0x432aff97; 0xab9423a7; 0xfc93a039;
    0x655b59c3; 0x8f0ccc92; 0xffeff47d; 0x85845dd1;
    0x6fa87e4f; 0xfe2ce6e0; 0xa3014314; 0x4e0811a1;
    0xf7537e82; 0xbd3af235; 0x2ad7d2bb; 0xeb86d391 ].

Definition shifts : list Z :=
  [ 7; 12; 17; 22; 7; 12; 17; 22; 7; 12; 17; 22; 7; 12; 17; 22;
    5; 9; 14; 20; 5; 9; 14; 20; 5; 9; 14; 20; 5; 9; 14; 20;
    4; 11; 16; 23; 4; 11; 16; 23; 4; 11; 16; 23; 4; 11; 16; 23;
    6; 10; 15; 21; 6; 10; 15; 21; 6; 10; 15; 21; 6; 10; 15; 21 ].

Record digest := Digest { s0 : Z; s1 : Z; s2 : Z; s3 : Z }.

Definition init : digest :=
  Digest 0x67452301 0xefcdab89 0x98badcfe 0x10325476.

(** The round function of step [i] (F, G, H, I of the RFC). *)
Definition mix (i : nat) (b c d : Z) : Z :=
  if (i <? 16)%nat then Z.lor (Z.land b c) (Z.land (not32 b) d)
  else if (i <? 32)%nat then Z.lor (Z.land b d) (Z.land c (not32 d))
  else if (i <? 48)%nat then Z.lxor b (Z.lxor c d)
  else Z.lxor c (Z.lor b (not32 d)).

(** Which word of the block step [i] reads. *)
Definition word_index (i : nat) : nat :=
  if (i <? 16)%nat then i
  else if (i <? 32)%nat then (5 * i + 1) mod 16
  else if (i <? 48)%nat then (3 * i + 5) mod 16
  else (7 * i) mod 16.

Definition step (x : list Z) (st : digest) (i : nat) : digest :=
  let '(Digest a b c d) := st in
  let f := add32 (add32 (add32 (mix i b c d) a) (nth i table 0))
                 (nth (word_index i) x 0) in
  Digest d (add32 b (rotl32 f (nth i shifts 0))) b c.

(** One 64-byte block, given as sixteen little-endian words. *)
Definition block (st : digest) (x : list Z) : digest :=
  let '(Digest a b c d) := fold_left (step x) (seq 0 64) st in
  Digest (add32 (s0 st) a) (add32 (s1 st) b)
         (add32 (s2 st) c) (add32 (s3 st) d).

Definition le_bytes (n : nat) (x : Z) : list Z :=
  map (fun k => Z.land (Z.shiftr x (8 * Z.of_nat k)) 0xff) (seq 0 n).

Fixpoint le_words (bs : list Z) : list Z :=
  match bs with
  | b0 :: b1 :: b2 :: b3 :: rest =>
      (b0 + Z.shiftl b1 8 + Z.shiftl b2 16 + Z.shiftl b3 24) :: le_words rest
  | _ => []
  end.

(** Padding: a 0x80 byte, zeros up to 56 modulo 64, then the length in
    bits as a 64-bit little-endian integer. *)
Definition pad (bs : list Z) : list Z :=
  let len := Z.of_nat (length bs) in
  let zeros := Z.to_nat ((55 - len) mod 64) in
  bs ++ 0x80 :: repeat 0 zeros ++ le_bytes 8 ((8 * len) mod 2 ^ 64).

Fixpoint blocks (n : nat) (ws : list Z) (st : digest) : digest :=
  match n with
  | O => st
  | S n => blocks n (skipn 16 ws) (block st (firstn 16 ws))
  end.

Definition bytes_of_string (s : string) : list Z :=
  map (fun a => Z.of_N (N_of_ascii a)) (list_ascii_of_string s).

(** [md5.Sum(data)]: the sixteen bytes of the digest. *)
Definition Sum (data : string) : list Z :=
  let ws := le_words (pad (bytes_of_string data)) in
  let '(Digest a b c d) := blocks (length ws / 16) ws init in
  le_bytes 4 a ++ le_bytes 4 b ++ le_bytes 4 c ++ le_bytes 4 d.

End md5.

(** [encoding/hex]. *)
Module hex.

Definition hextable : string := "0123456789abcdef".

Definition digit (n : Z) : ascii :=
  match String.get (Z.to_nat n) hextable with
  | Some a => a
  | None => "0"%char
  end.

(** [hex.EncodeToString(src)]: two lowercase digits for each byte. *)
Fixpoint EncodeToString (src : list Z) : string :=
  match src with
  | [] => ""
  | v :: rest =>
      String (digit (Z.shiftr v 4))
        (String (digit (Z.land v 0x0f)) (EncodeToString rest))
  end.

End hex.

(** [sort]. *)
Module sort.

(** [sort.Strings(x)] sorts [x] in increasing order of [<] on strings,
    which compares byte by byte.  The slice is sorted in place; here
    the sorted slice is the result. *)
Definition Strings (x : list string) : list string :=
  merge_sort String.le x.

End sort.

(** [net/url]. *)
Module url.

(** [v.Get(key)]: the first value of [key], or the empty string. *)
Definition Get (v : Values) (key : string) : string :=
  match v !! key with
  | Some (x :: _) => x
  | _ => ""
  end.

(** [v.Set(key, value)]: [key] gets the single value [value]. *)
Definition Set_ (v : Values) (key value : string) : Values :=
  <[key := [value]]> v.

Definition is_alnum (c : ascii) : bool :=
  let n := N_of_ascii c in
  ((97 <=? n) && (n <=? 122) || (65 <=? n) && (n <=? 90)
   || (48 <=? n) && (n <=? 57))%N.

(** [shouldEscape(c, encodeQueryComponent)]. *)
Definition shouldEscape (c : ascii) : bool :=
  if is_alnum c then false
  else match c with
       | "-" | "_" | "." | "~" => false
       | _ => true
       end%char.

Definition upperhex : string := "0123456789ABCDEF".

Definition upperdigit (n : N) : ascii :=
  match String.get (N.to_nat n) upperhex with
  | Some a => a
  | None => "0"%char
  end.

(** [url.QueryEscape(s)]. *)
Fixpoint QueryEscape (s : string) : string :=
  match s with
  | EmptyString => ""
  | String c rest =>
      if Ascii.eqb c " " then String "+" (QueryEscape rest)
      else if shouldEscape c then
        String "%" (String (upperdigit (N.shiftr (N_of_ascii c) 4))
          (String (upperdigit (N.land (N_of_ascii c) 15)) (QueryEscape rest)))
      else String c (QueryEscape rest)
  end.

(** The body of the inner loop of [Encode]: one [key=value] pair,
    after an ampersand unless the buffer is empty. *)
Definition write_pair (keyEscaped : string) (buf v : string) : string :=
  (if String.eqb buf "" then buf else buf +:+ "&")
    +:+ keyEscaped +:+ "=" +:+ QueryEscape v.

(** [v.Encode()] with the keys ranged over in the order [keys0]. *)
Definition Encode_from (keys0 : list string) (v : Values) : string :=
  let keys := sort.Strings keys0 in
  fold_left
    (fun buf k => fold_left (write_pair (QueryEscape k)) (default [] (v !! k)) buf)
    keys "".

(** The part of [url.URL] that this package sets. *)
Record URL := { Scheme : string; Host : string; Path : string; RawQuery : string }.

(** [u.String()] for a URL with a scheme, a host and a path of
    unreserved characters and slashes (the host and the path are then
    written unescaped): [scheme://host/path?query]. *)
Definition String_ (u : URL) : string :=
  Scheme u +:+ ":" +:+ "//" +:+ Host u +:+ Path u
    +:+ (if String.eqb (RawQuery u) "" then "" else "?" +:+ RawQuery u).

End url.

(** The keys of a map in the order of one [range] loop over it. *)
Definition range_keys {A} (m : gmap string A) : list string :=
  (map_to_list m).*1.

Definition Encode (v : Values) : string := url.Encode_from (range_keys v) v.

(** The query string of the parameters under the keys [ks], each with
    one value: [key=value] pairs, escaped, joined by ampersands. *)
Definition pair_string (v : Values) (k : string) : string :=
  url.QueryEscape k +:+ "=" +:+ url.QueryEscape (url.Get v k).

Fixpoint amp_pairs (v : Values) (ks : list string) : string :=
  match ks with
  | [] => ""
  | k :: ks => "&" +:+ pair_string v k +:+ amp_pairs v ks
  end.

Definition query_string (v : Values) (ks : list string) : string :=
  match ks with
  | [] => ""
  | k :: ks => pair_string v k +:+ amp_pairs v ks
  end.

(** Each key of [ks] has exactly one value in [v]. *)
Definition single_valued (v : Values) (ks : list string) : Prop :=
  ∀ k, k ∈ ks → ∃ x, v !! k = Some [x].

(** ** The package *)

Definition userAgent : string := "github.com/AlekSi/rtm".

Definition authEndpoint : url.URL :=
  {| url.Scheme := "https"; url.Host := "api.rememberthemilk.com";
     url.Path := "/services/auth/"; url.RawQuery := "" |}.

Definition restEndpoint : url.URL :=
  {| url.Scheme := "https"; url.Host := "api.rememberthemilk.com";
     url.Path := "/services/rest/"; url.RawQuery := "" |}.

(** [type Perms string]. *)
Definition Perms : Type := string.
Definition Read : Perms := "read".
Definition Write_ : Perms := "write".
Definition Delete : Perms := "delete".

(** [type Error struct]: the [err] element of a response. *)
Record Error := { Code : Z; Msg : string }.

(** [func (e *Error) Error() string]: [fmt.Sprintf("%d: %s", e.Code, e.Msg)]. *)
Definition Error_Error (e : Error) : string :=
  pretty (Code e) +:+ ": " +:+ Msg e.

(** The operand of a [fmt.Errorf] call. *)
Inductive operand :=
| OfInt (n : Z)
| OfString (s : string).

(** The packages whose errors [post] and [Call] pass on unchanged. *)
Inductive origin := net_url | net_http | httputil | io | encoding_xml.

(** A Go [error] value, by its dynamic type: a [*Error] of this
    package, the value of a [fmt.Errorf] call (its format and operand),
    or an error made by a library, which this package never inspects. *)
Inductive error :=
| RtmError (e : Error)
| Errorf (format : string) (a : operand)
| LibError (from : origin) (msg : string).

(** [context.Context]: an opaque value handed to the transport. *)
Definition Context : Type := nat.

(** [context.Background()]. *)
Definition Background : Context := 0%nat.

Module http.

(** [*http.Request], as far as [post] fills it in; the body is nil. *)
Record Request := {
  Method : string;
  URL : string;
  Header : list (string * string);
  Ctx : option Context
}.

(** [resp.Body]: the bytes that reading to the end delivers, and the
    error that ends the reading when it is not end-of-file. *)
Record Body := { content : string; read_err : option string }.

(** [*http.Response]. *)
Record Response := {
  StatusCode : Z;
  RespHeader : list (string * string);
  RespBody : Body
}.

(** What [Do] returns: a response and a nil error, or an error with
    (after a failed redirect) or without a response.  [Do] never
    returns a nil response with a nil error. *)
Inductive DoResult :=
| DoOk (resp : Response)
| DoErr (resp : option Response) (err : string).

(** The response of a [DoResult], nil when there is none. *)
Definition resp_of (r : DoResult) : option Response :=
  match r with
  | DoOk resp => Some resp
  | DoErr resp _ => resp
  end.

(** [*http.Client]: its [Do] method. *)
Record Client := { Do : Request -> DoResult }.

(** [req.WithContext(ctx)]. *)
Definition WithContext (req : Request) (ctx : Context) : Request :=
  {| Method := Method req; URL := URL req; Header := Header req;
     Ctx := Some ctx |}.

(** [req.Header.Set(key, value)]. *)
Definition Header_Set (req : Request) (key value : string) : Request :=
  {| Method := Method req; URL := URL req;
     Header := (key, value) :: filter (fun kv => kv.1 ≠ key) (Header req);
     Ctx := Ctx req |}.

End http.

(** [type Client struct].  [DebugLogger] is a function value that the
    package only compares with nil and calls: the field records
    whether it is set, and its calls are events of the trace. *)
Record Client := {
  APIKey : string;
  APISecret : string;
  AuthToken : string;
  HTTPClient : option http.Client;
  DebugLogger : bool
}.

(** [for k, v := range entries { q.Set(k, v) }], and more generally
    a parameter set filled by one [Set] after the other. *)
Definition set_all (entries : list (string * string)) (q : Values) : Values :=
  fold_left (fun q kv => url.Set_ q kv.1 kv.2) entries q.

(** [keys0] is an order in which a [range] loop may visit the keys of
    [m]: each key once. *)
Definition ranges {A} (m : gmap string A) (keys0 : list string) : Prop :=
  keys0 ≡ₚ range_keys m.

(** The string that [sign] digests, built by its second loop. *)
Definition string_to_sign (c : Client) (keys : list string) (q : Values) : string :=
  fold_left (fun sts k => sts +:+ (k +:+ url.Get q k)) keys (APISecret c).

(** [func (c *Client) sign(q url.Values)], with the keys of [q] ranged
    over in the order [keys0].  [q] is updated in place: the result is
    [q] after the call. *)
Definition sign_from (keys0 : list string) (c : Client) (q : Values) : Values :=
  let keys := sort.Strings keys0 in
  let sts := string_to_sign c keys q in
  let sum := md5.Sum sts in
  url.Set_ q "api_sig" (hex.EncodeToString sum).

Definition sign (c : Client) (q : Values) : Values :=
  sign_from (range_keys q) c q.

(** The string that one call of [sign] digests. *)
Definition signing_input (c : Client) (q : Values) : string :=
  string_to_sign c (sort.Strings (range_keys q)) q.

(** *** The signature as the specification words it *)

(** [ks] lists the keys of [q], each once, in ascending byte order. *)
Definition ascending_keys (q : Values) (ks : list string) : Prop :=
  NoDup ks ∧ (∀ k, k ∈ ks ↔ k ∈ dom q) ∧ Sorted String.le ks.

(** Each key of [ks] immediately followed by its value, no separators. *)
Fixpoint pairs (q : Values) (ks : list string) : string :=
  match ks with
  | [] => ""
  | k :: ks => k +:+ url.Get q k +:+ pairs q ks
  end.

(** The lowercase hexadecimal MD5 digest of the secret followed by the
    pairs. *)
Definition spec_signature (secret : string) (q : Values) (ks : list string) : string :=
  hex.EncodeToString (md5.Sum (secret +:+ pairs q ks)).

(** The query of [AuthenticationURL] before it is signed. *)
Definition auth_query (c : Client) (perms : Perms) (frob : string) : Values :=
  let q : Values := ∅ in
  let q := url.Set_ q "api_key" (APIKey c) in
  let q := url.Set_ q "perms" perms in
  if decide (frob ≠ "") then url.Set_ q "frob" frob else q.

(** [func (c *Client) AuthenticationURL(perms Perms, frob string) string]. *)
Definition AuthenticationURL (c : Client) (perms : Perms) (frob : string) : string :=
  let q := sign c (auth_query c perms frob) in
  let u := authEndpoint in
  let u := {| url.Scheme := url.Scheme u; url.Host := url.Host u;
              url.Path := url.Path u; url.RawQuery := Encode q |} in
  url.String_ u.

(** ** The call engine *)

(** The struct that [Call] decodes a response into ([XMLName] only
    names the root element that the decoder expects). *)
Record rsp := { Stat : string; Err : option Error; Inner : string }.

(** What the libraries do on values that this package does not look
    into: whether [url.Parse] accepts a URL, the bytes that
    [httputil.DumpRequestOut] and [Response.Write] produce,
    [http.DefaultClient], and [xml.Unmarshal] into a [rsp] (the struct
    as the decoder left it, and its error). *)
Record Lib := {
  parse_error : string -> option string;
  DumpRequestOut : http.Request -> string + string;
  Response_Write : http.Response -> string + string;
  DefaultClient : http.Client;
  Unmarshal : string -> rsp * option string
}.

(** [http.NewRequest(method, url, nil)] for a valid method: it fails
    when the URL does not parse. *)
Definition NewRequest (L : Lib) (method urlStr : string) : http.Request + string :=
  match parse_error L urlStr with
  | Some msg => inr msg
  | None => inl {| http.Method := method; http.URL := urlStr;
                   http.Header := []; http.Ctx := None |}
  end.

(** [httputil.DumpResponse(resp, true)]: it reads the body to the end,
    fails if the reading does, and puts back a body with the same
    bytes before it writes the response out.  (It also closes the body
    that it has read to the end; what the library does to the body is
    not an event of the trace below.) *)
Definition DumpResponse (L : Lib) (resp : http.Response) : string + string :=
  match http.read_err (http.RespBody resp) with
  | Some msg => inr msg
  | None => Response_Write L resp
  end.

(** [ioutil.ReadAll(resp.Body)]: the bytes read and the error, if any. *)
Definition ReadAll (b : http.Body) : string * option error :=
  (http.content b, LibError io <$> http.read_err b).

(** What [post] itself does to the outside, in order: a call of the
    debug logger, its call of [Do] on the HTTP client (which may follow
    redirects and so make several exchanges with the server), and its
    deferred call of [resp.Body.Close()]. *)
Inductive event :=
| Logged (s : string)
| RoundTrip (req : http.Request)
| Closed.

(** The pair that [post] and [Call] return. *)
Definition result : Type := string * option error.

(** A statement either goes on to the next one with a value or
    returns from the function. *)
Inductive flow (A : Type) :=
| Next (a : A)
| Return (r : result).
Arguments Next {A} a.
Arguments Return {A} r.

Definition M (A : Type) : Type := list event * flow A.

Definition ret {A} (a : A) : M A := ([], Next a).

Definition bind {A B} (m : M A) (k : A -> M B) : M B :=
  match m with
  | (t, Next a) => let '(t', f) := k a in (t ++ t', f)
  | (t, Return r) => (t, Return r)
  end.

Notation "x <- m ;; k" := (bind m (fun x => k))
  (at level 100, m at next level, right associativity).

Definition emit (e : event) : M unit := ([e], Next tt).

Definition return_ {A} (r : result) : M A := ([], Return r).

(** [x, err := f(...); if err != nil { return nil, err }]. *)
Definition or_return {A} (from : origin) (r : A + string) : M A :=
  match r with
  | inl a => ret a
  | inr msg => return_ ("", Some (LibError from msg))
  end.

(** [defer]: the event happens when the rest of the function is done. *)
Definition defer {A} (e : event) (m : M A) : M A :=
  let '(t, f) := m in (t ++ [e], f).

(** A function body ends in a [return]. *)
Definition run (m : M result) : list event * result :=
  match m with
  | (t, Next r) => (t, r)
  | (t, Return r) => (t, r)
  end.

(** [func (c *Client) http() *http.Client]. *)
Definition http_ (L : Lib) (c : Client) : http.Client :=
  match HTTPClient c with
  | None => DefaultClient L
  | Some h => h
  end.

(** The parameters of [post] before they are signed, with the entries
    of [args] ranged over in the order [entries]. *)
Definition post_params_from (entries : list (string * string))
    (c : Client) (method format : string) : Values :=
  let q : Values := set_all entries ∅ in
  let q := url.Set_ q "v" "2" in
  let q := url.Set_ q "method" method in
  let q := if decide (format ≠ "") then url.Set_ q "format" format else q in
  let q := url.Set_ q "api_key" (APIKey c) in
  if decide (AuthToken c ≠ "") then url.Set_ q "auth_token" (AuthToken c) else q.

Definition post_params (c : Client) (method : string) (args : Args)
    (format : string) : Values :=
  post_params_from (map_to_list args) c method format.

(** The request that [post] builds from the signed parameters. *)
Definition post_url (c : Client) (method : string) (args : Args)
    (format : string) : string :=
  let q := sign c (post_params c method args format) in
  let u := restEndpoint in
  let u := {| url.Scheme := url.Scheme u; url.Host := url.Host u;
              url.Path := url.Path u; url.RawQuery := Encode q |} in
  url.String_ u.

(** [func (c *Client) post(ctx, method, args, format) ([]byte, error)]. *)
Definition post (L : Lib) (c : Client) (ctx : Context) (method : string)
    (args : Args) (format : string) : list event * result :=
  run (
    req <- or_return net_url (NewRequest L "POST" (post_url c method args format)) ;;
    let req := http.WithContext req ctx in
    let req := http.Header_Set req "User-Agent" userAgent in
    _ <- (if DebugLogger c then
            b <- or_return httputil (DumpRequestOut L req) ;;
            emit (Logged b)
          else ret tt) ;;
    _ <- emit (RoundTrip req) ;;
    let r := http.Do (http_ L c) req in
    match http.resp_of r with
    | Some resp => fun rest =>
        defer Closed (
          _ <- (if DebugLogger c then
                  b <- or_return httputil (DumpResponse L resp) ;;
                  emit (Logged b)
                else ret tt) ;;
          rest)
    | None => fun rest => rest
    end (
      match r with
      | http.DoErr _ err => return_ ("", Some (LibError net_http err))
      | http.DoOk resp =>
          if decide (http.StatusCode resp ≠ 200) then
            return_ ("", Some (Errorf "HTTP status code %d"
                                 (OfInt (http.StatusCode resp))))
          else return_ (ReadAll (http.RespBody resp))
      end)).

(** The [switch] of [Call] on the decoded response. *)
Definition Call_switch (r : rsp) (err : option string) : result :=
  match err with
  | Some msg => ("", Some (LibError encoding_xml msg))
  | None =>
      match Err r with
      | Some e => ("", Some (RtmError e))
      | None =>
          if decide (Stat r ≠ "ok") then
            ("", Some (Errorf "unexpected stat %q" (OfString (Stat r))))
          else (Inner r, None)
      end
  end.

(** [Call] from the point where [post] has returned the body [b]. *)
Definition Call_body (L : Lib) (b : string) : result :=
  let '(r, err) := Unmarshal L b in Call_switch r err.

(** [func (c *Client) Call(ctx, method, args) ([]byte, error)]. *)
Definition Call (L : Lib) (c : Client) (ctx : Context) (method : string)
    (args : Args) : list event * result :=
  let '(t, (b, err)) := post L c ctx method args "" in
  match err with
  | Some e => (t, ("", Some e))
  | None => (t, Call_body L b)
  end.

(** The request that [post] hands to the transport, once
    [http.NewRequest] has accepted its URL. *)
Definition post_request (c : Client) (ctx : Context) (method : string)
    (args : Args) (format : string) : http.Request :=
  http.Header_Set
    (http.WithContext
       {| http.Method := "POST"; http.URL := post_url c method args format;
          http.Header := []; http.Ctx := None |} ctx)
    "User-Agent" userAgent.

(** The libraries [L] with another [xml.Unmarshal]. *)
Definition with_Unmarshal (L : Lib) (u : string -> rsp * option string) : Lib :=
  {| parse_error := parse_error L; DumpRequestOut := DumpRequestOut L;
     Response_Write := Response_Write L; DefaultClient := DefaultClient L;
     Unmarshal := u |}.

(** The records that a trace hands to the debug logger, in order. *)
Definition logged (t : list event) : list string :=
  omap (fun e => match e with Logged s => Some s | _ => None end) t.

(** The control parameters of [post] in the parameter set [q]: the
    version, the method and the key always; the format and the token
    when they are not empty, and otherwise whatever the caller's
    parameters [caller] hold under those keys. *)
Definition control_values (c : Client) (method format : string)
    (caller q : Values) : Prop :=
  q !! "v" = Some ["2"]
  ∧ q !! "method" = Some [method]
  ∧ q !! "api_key" = Some [APIKey c]
  ∧ q !! "format" = (if decide (format = "") then caller !! "format"
                     else Some [format])
  ∧ q !! "auth_token" = (if decide (AuthToken c = "") then caller !! "auth_token"
                         else Some [AuthToken c]).

(** The outcomes of a call that the specification tells apart: a
    payload, the service's error with its code and message, a response
    that does not decode, and any other failure. *)
Inductive outcome :=
| Payload (p : string)
| ProtocolError (code : Z) (msg : string)
| DecodeError (msg : string)
| OtherFailure (e : error).

Definition outcome_of (r : result) : outcome :=
  match r with
  | (p, None) => Payload p
  | (_, Some (RtmError e)) => ProtocolError (Code e) (Msg e)
  | (_, Some (LibError encoding_xml msg)) => DecodeError msg
  | (_, Some e) => OtherFailure e
  end.

(** ** Sample values *)

(** The example of the service's page on signing requests: the secret
    BANANAS and the parameters yxz=foo, feg=bar, abc=baz. *)
Definition bananas : Client :=
  {| APIKey := "abc123"; APISecret := "BANANAS"; AuthToken := "";
     HTTPClient := None; DebugLogger := false |}.

Definition bananas_entries : list (string * string) :=
  [("yxz", "foo"); ("feg", "bar"); ("abc", "baz")].

Definition bananas_query : Values := set_all bananas_entries ∅.

(** A transport that answers every request in the same way. *)
Definition canned (r : http.DoResult) : http.Client := {| http.Do := fun _ => r |}.

Definition quote : ascii := "034"%char.

Definition quoted (s : string) : string := String quote (s +:+ String quote "").

(** The bodies of the specification's examples, and an empty root. *)
Definition body_ok : string := "<rsp stat=" +:+ quoted "ok" +:+ "><x>1</x></rsp>".

Definition body_err_inner : string :=
  "<err code=" +:+ quoted "98" +:+ " msg=" +:+ quoted "Login failed" +:+ "/>".

Definition body_fail : string :=
  "<rsp stat=" +:+ quoted "fail" +:+ ">" +:+ body_err_inner +:+ "</rsp>".

Definition body_weird : string := "<rsp stat=" +:+ quoted "weird" +:+ "></rsp>".

Definition body_empty : string := "<rsp stat=" +:+ quoted "ok" +:+ "/>".

(** What [xml.Unmarshal] makes of those bodies; anything else is not
    XML here. *)
Definition sample_Unmarshal (b : string) : rsp * option string :=
  if decide (b = body_ok) then
    ({| Stat := "ok"; Err := None; Inner := "<x>1</x>" |}, None)
  else if decide (b = body_fail) then
    ({| Stat := "fail"; Err := Some {| Code := 98; Msg := "Login failed" |};
        Inner := body_err_inner |}, None)
  else if decide (b = body_weird) then
    ({| Stat := "weird"; Err := None; Inner := "" |}, None)
  else if decide (b = body_empty) then
    ({| Stat := "ok"; Err := None; Inner := "" |}, None)
  else ({| Stat := ""; Err := None; Inner := "" |}, Some "EOF").

(** Library behaviour for the examples: every URL parses, the dumps
    are a line each, and the default transport finds no network. *)
Definition sample_lib : Lib :=
  {| parse_error := fun _ => None;
     DumpRequestOut := fun req => inl (http.Method req +:+ " " +:+ http.URL req);
     Response_Write := fun resp =>
       inl ("HTTP/1.1 " +:+ pretty (http.StatusCode resp) +:+ " "
              +:+ http.content (http.RespBody resp));
     DefaultClient := canned (http.DoErr None "dial tcp: connection refused");
     Unmarshal := sample_Unmarshal |}.

Definition whole (b : string) : http.Body :=
  {| http.content := b; http.read_err := None |}.

(** A body that breaks off after its first bytes. *)
Definition truncated (b : string) : http.Body :=
  {| http.content := b; http.read_err := Some "unexpected EOF" |}.

Definition response (status : Z) (b : http.Body) : http.Response :=
  {| http.StatusCode := status; http.RespHeader := []; http.RespBody := b |}.

(** A client of the sample key with a given transport and logger. *)
Definition sample_client (h : option http.Client) (debug : bool) : Client :=
  {| APIKey := "abc123"; APISecret := "BANANAS"; AuthToken := "";
     HTTPClient := h; DebugLogger := debug |}.

(** A transport that answers with the given status and body. *)
Definition server (status : Z) (b : http.Body) : http.Client :=
  canned (http.DoOk (response status b)).

(** ** Further notions for the properties below *)

(** How often the character [a] occurs in [s]. *)
Fixpoint count_char (a : ascii) (s : string) : nat :=
  match s with
  | EmptyString => O
  | String b s => ((if Ascii.eqb a b then 1 else 0) + count_char a s)%nat
  end.

(** The characters of a decimal number. *)
Definition decimal_char (a : ascii) : Prop :=
  a ∈ list_ascii_of_string "-0123456789".

(** The request of [post] is built and, if the debug logger is set,
    dumped without an error: [post] gets as far as calling [Do]. *)
Definition goes_out (L : Lib) (c : Client) (ctx : Context) (method : string)
    (args : Args) (format : string) : Prop :=
  parse_error L (post_url c method args format) = None
  ∧ (DebugLogger c = true →
     ∃ b, DumpRequestOut L (post_request c ctx method args format) = inl b).

(** The requests with which a trace calls [Do], in order.  One call of
    [Do] may make several exchanges with the server (redirects); those
    are the library's and are not counted here. *)
Definition Do_calls (t : list event) : list http.Request :=
  omap (fun e => match e with RoundTrip req => Some req | _ => None end) t.

(** The client [c] with its debug logger set to nil. *)
Definition without_logger (c : Client) : Client :=
  {| APIKey := APIKey c; APISecret := APISecret c; AuthToken := AuthToken c;
     HTTPClient := HTTPClient c; DebugLogger := false |}.

(** * Properties *)

(** ** The digest on the test suite of RFC 1321 *)

Example md5_empty :
  hex.EncodeToString (md5.Sum "") = "d41d8cd98f00b204e9800998ecf8427e".
Proof. by vm_compute. Qed.

Example md5_abc :
  hex.EncodeToString (md5.Sum "abc") = "900150983cd24fb0d6963f7d28e17f72".
Proof. by vm_compute. Qed.

Example md5_message_digest :
  hex.EncodeToString (md5.Sum "message digest")
  = "f96b697d7cb7938d525a2f31aaf161d0".
Proof. by vm_compute. Qed.

Example md5_two_blocks :
  hex.EncodeToString
    (md5.Sum "12345678901234567890123456789012345678901234567890123456789012345678901234567890")
  = "57edf4a22be3c955ac49da2e2107b67a".
Proof. by vm_compute. Qed.

Example Error_Error_login :
  Error_Error {| Code := 98; Msg := "Login failed" |} = "98: Login failed".
Proof. by vm_compute. Qed.

(** ** Strings and sorting *)

Lemma app_assoc_string (a b c : string) : (a +:+ b) +:+ c = a +:+ (b +:+ c).
Proof.
  induction a as [|x a IH]; [done|].
  change (String x ((a +:+ b) +:+ c) = String x (a +:+ (b +:+ c))).
  by rewrite IH.
Qed.

Lemma app_empty_r (a : string) : a +:+ "" = a.
Proof.
  induction a as [|x a IH]; [done|].
  change (String x (a +:+ "") = String x a). by rewrite IH.
Qed.

Lemma Strings_Sorted (l : list string) : Sorted String.le (sort.Strings l).
Proof. apply (Sorted_merge_sort String.le). Qed.

Lemma Strings_Permutation (l : list string) : sort.Strings l ≡ₚ l.
Proof. apply (merge_sort_Permutation String.le). Qed.

(** The order is that of the bytes: capitals come before small
    letters, and a prefix before its extensions. *)
Example Strings_bytes :
  sort.Strings ["perms"; "api_key"; "Zeta"; "api"; "frob"; "api_sig"]
  = ["Zeta"; "api"; "api_key"; "api_sig"; "frob"; "perms"].
Proof. by vm_compute. Qed.

(** Sorting gives the one ascending arrangement of its input. *)
Lemma Strings_unique (l l' : list string) :
  l ≡ₚ l' → Sorted String.le l' → sort.Strings l = l'.
Proof.
  intros Hp Hs. apply (Sorted_unique String.le); [apply Strings_Sorted|done|].
  by rewrite Strings_Permutation.
Qed.

Lemma Strings_order (l l' : list string) :
  l ≡ₚ l' → sort.Strings l = sort.Strings l'.
Proof.
  intros Hp. apply Strings_unique; [|apply Strings_Sorted].
  by rewrite Strings_Permutation.
Qed.

(** ** Ranging over a map *)

Lemma range_keys_NoDup {A} (m : gmap string A) : NoDup (range_keys m).
Proof. apply NoDup_fst_map_to_list. Qed.

Lemma elem_of_range_keys {A} (m : gmap string A) (k : string) :
  k ∈ range_keys m ↔ k ∈ dom m.
Proof.
  unfold range_keys. rewrite elem_of_dom, list_elem_of_fmap. split.
  - intros [[k' x] [-> Hx]]. apply elem_of_map_to_list in Hx. by exists x.
  - intros [x Hx]. exists (k, x). split; [done|]. by apply elem_of_map_to_list.
Qed.

Lemma ranges_range_keys {A} (m : gmap string A) : ranges m (range_keys m).
Proof. by unfold ranges. Qed.

(** A duplicate-free list with the keys of [m] is a range order of [m]. *)
Lemma ranges_intro {A} (m : gmap string A) (ks : list string) :
  NoDup ks → (∀ k, k ∈ ks ↔ k ∈ dom m) → ranges m ks.
Proof.
  intros Hnd Hin. apply NoDup_Permutation; [done|apply range_keys_NoDup|].
  intros k. by rewrite Hin, elem_of_range_keys.
Qed.

Lemma ascending_keys_sorted (q : Values) (keys0 ks : list string) :
  ranges q keys0 → ascending_keys q ks → sort.Strings keys0 = ks.
Proof.
  intros Hr (Hnd & Hin & Hs). apply Strings_unique; [|done].
  unfold ranges in Hr. rewrite Hr. symmetry. by apply ranges_intro.
Qed.

(** ** [sign] *)

Lemma string_to_sign_pairs (c : Client) (ks : list string) (q : Values) :
  string_to_sign c ks q = APISecret c +:+ pairs q ks.
Proof.
  unfold string_to_sign. generalize (APISecret c) as s.
  induction ks as [|k ks IH]; intros s; simpl.
  - by rewrite app_empty_r.
  - by rewrite IH, !app_assoc_string.
Qed.

(** The result of [sign] does not depend on the order in which its
    first loop visits the keys. *)
Lemma sign_from_ranges (keys0 : list string) (c : Client) (q : Values) :
  ranges q keys0 → sign_from keys0 c q = sign c q.
Proof. intros Hr. unfold sign, sign_from. by rewrite (Strings_order _ _ Hr). Qed.

Lemma sign_from_lookup_ne (keys0 : list string) (c : Client) (q : Values)
    (k : string) :
  k ≠ "api_sig" → sign_from keys0 c q !! k = q !! k.
Proof. intros Hk. unfold sign_from, url.Set_. by rewrite lookup_insert_ne. Qed.

Lemma sign_lookup_api_sig (c : Client) (q : Values) :
  sign c q !! "api_sig" =
    Some [hex.EncodeToString (md5.Sum (signing_input c q))].
Proof. unfold sign, sign_from, url.Set_. by rewrite lookup_insert_eq. Qed.

Lemma sign_lookup_ne (c : Client) (q : Values) (k : string) :
  k ≠ "api_sig" → sign c q !! k = q !! k.
Proof. intros Hk. unfold sign, sign_from, url.Set_. by rewrite lookup_insert_ne. Qed.

(** C1.  In every run of [sign] on a parameter set [q] with the secret
    of [c], the [api_sig] it sets is the lowercase hexadecimal MD5
    digest of the secret followed by each key of [q], in ascending byte
    order, immediately followed by its value; for the empty set it is
    the digest of the secret alone. *)
Theorem sign_signature (c : Client) (q : Values) (keys0 ks : list string) :
  ranges q keys0 →
  ascending_keys q ks →
  sign_from keys0 c q !! "api_sig" = Some [spec_signature (APISecret c) q ks]
  ∧ (q = ∅ →
     sign_from keys0 c q !! "api_sig" =
       Some [hex.EncodeToString (md5.Sum (APISecret c))]).
Proof.
  intros Hr Ha.
  assert (sign_from keys0 c q !! "api_sig"
          = Some [spec_signature (APISecret c) q ks]) as Hsig.
  { unfold sign_from, url.Set_. rewrite lookup_insert_eq.
    rewrite (ascending_keys_sorted q keys0 ks Hr Ha).
    by rewrite string_to_sign_pairs. }
  split; [done|]. intros ->. rewrite Hsig.
  destruct Ha as (_ & Hin & _). destruct ks as [|k ks].
  - unfold spec_signature. simpl. by rewrite app_empty_r.
  - exfalso. specialize (Hin k). rewrite dom_empty_L in Hin.
    apply (not_elem_of_empty (C:=gset string) k), Hin. left.
Qed.

Lemma bananas_dom : dom bananas_query = {["abc"; "feg"; "yxz"]}.
Proof.
  unfold bananas_query, bananas_entries, set_all, url.Set_. simpl.
  rewrite !dom_insert_L, dom_empty_L. set_solver.
Qed.

Lemma bananas_ascending : ascending_keys bananas_query ["abc"; "feg"; "yxz"].
Proof.
  split; [compute_done|].
  split; [|compute_done].
  intros k. rewrite bananas_dom. set_solver.
Qed.

Lemma bananas_ranges : ranges bananas_query ["yxz"; "feg"; "abc"].
Proof.
  apply ranges_intro; [compute_done|].
  intros k. rewrite bananas_dom. set_solver.
Qed.

Lemma sign_signature_witness :
  sign_from ["yxz"; "feg"; "abc"] bananas bananas_query !! "api_sig"
  = Some ["82044aae4dd676094f23f1ec152159ba"].
Proof.
  destruct (sign_signature bananas bananas_query ["yxz"; "feg"; "abc"]
              ["abc"; "feg"; "yxz"] bananas_ranges bananas_ascending) as [-> _].
  vm_compute. reflexivity.
Defined.

(** *** Filling a parameter set *)

Lemma set_all_union (kvs : list (string * string)) (q : Values) :
  NoDup kvs.*1 →
  set_all kvs q = ((λ v, [v]) <$> list_to_map kvs) ∪ q.
Proof.
  revert q. induction kvs as [|[k v] kvs IH]; intros q Hnd.
  - simpl. by rewrite fmap_empty, (left_id_L ∅ (∪)).
  - apply NoDup_cons in Hnd as [Hk Hnd].
    change (set_all ((k, v) :: kvs) q) with (set_all kvs (url.Set_ q k v)).
    rewrite (IH _ Hnd), list_to_map_cons, fmap_insert. unfold url.Set_.
    rewrite <-insert_union_l. symmetry. apply insert_union_r.
    rewrite lookup_fmap. by rewrite (not_elem_of_list_to_map_1 kvs k Hk).
Qed.

(** Inserting entries with different keys in another order gives the
    same parameter set. *)
Lemma set_all_Permutation (kvs kvs' : list (string * string)) (q : Values) :
  NoDup kvs.*1 → kvs ≡ₚ kvs' → set_all kvs q = set_all kvs' q.
Proof.
  intros Hnd Hp. rewrite !set_all_union; [|by rewrite <-Hp|done].
  by rewrite (list_to_map_proper kvs kvs' Hnd Hp).
Qed.

Lemma set_all_map_to_list (args : Args) :
  set_all (map_to_list args) ∅ = (λ v, [v]) <$> args.
Proof.
  rewrite set_all_union by apply NoDup_fst_map_to_list.
  by rewrite list_to_map_to_list, (right_id_L ∅ (∪)).
Qed.

(** C2.  Two runs of [sign] on a parameter set give the same result
    whatever the order in which each run visits the keys, and so do
    runs on parameter sets filled with the same entries (each key
    once) in two different orders. *)
Theorem sign_order_independent (c : Client)
    (kvs kvs' : list (string * string)) (keys0 keys0' : list string) :
  NoDup kvs.*1 →
  kvs ≡ₚ kvs' →
  ranges (set_all kvs ∅) keys0 →
  ranges (set_all kvs' ∅) keys0' →
  sign_from keys0 c (set_all kvs ∅) = sign_from keys0' c (set_all kvs' ∅).
Proof.
  intros Hnd Hp Hr Hr'.
  rewrite (sign_from_ranges keys0 c _ Hr), (sign_from_ranges keys0' c _ Hr').
  by rewrite (set_all_Permutation kvs kvs' ∅ Hnd Hp).
Qed.

Lemma sign_order_independent_witness :
  sign_from ["yxz"; "feg"; "abc"] bananas (set_all bananas_entries ∅)
  = sign_from ["feg"; "abc"; "yxz"] bananas
      (set_all [("abc", "baz"); ("yxz", "foo"); ("feg", "bar")] ∅).
Proof.
  apply (sign_order_independent bananas bananas_entries
           [("abc", "baz"); ("yxz", "foo"); ("feg", "bar")]).
  - compute_done.
  - unfold bananas_entries.
    symmetry. apply (Permutation_cons_append [("yxz", "foo"); ("feg", "bar")]).
  - apply bananas_ranges.
  - apply ranges_intro; [compute_done|].
    intros k. unfold set_all, url.Set_. simpl.
    rewrite !dom_insert_L, dom_empty_L. set_solver.
Defined.

(** C9.  [sign] changes its parameter set only at the key [api_sig]:
    under every other key the set holds after the call what it held
    before (the same values, or nothing), so that no other key is
    added or removed, in every run. *)
Theorem sign_frame (keys0 : list string) (c : Client) (q : Values) (k : string) :
  k ≠ "api_sig" →
  sign_from keys0 c q !! k = q !! k
  ∧ (k ∈ dom (sign_from keys0 c q) ↔ k ∈ dom q).
Proof.
  intros Hk. split; [by apply sign_from_lookup_ne|].
  by rewrite !elem_of_dom, sign_from_lookup_ne.
Qed.

Lemma sign_frame_witness :
  sign_from ["yxz"; "feg"; "abc"] bananas bananas_query !! "feg" = Some ["bar"]
  ∧ sign_from ["yxz"; "feg"; "abc"] bananas bananas_query !! "frob" = None.
Proof.
  split.
  - destruct (sign_frame ["yxz"; "feg"; "abc"] bananas bananas_query "feg")
      as [-> _]; [discriminate|reflexivity].
  - destruct (sign_frame ["yxz"; "feg"; "abc"] bananas bananas_query "frob")
      as [-> _]; [discriminate|reflexivity].
Defined.

(** ** [AuthenticationURL] *)

Lemma hex_digit_plain (n : Z) :
  url.shouldEscape (hex.digit n) = false ∧ Ascii.eqb (hex.digit n) " " = false.
Proof.
  unfold hex.digit. generalize (Z.to_nat n) as m. intros m.
  do 16 (destruct m as [|m]; [by vm_compute|]). by vm_compute.
Qed.

(** [hex.EncodeToString] writes lowercase digits only. *)
Lemma EncodeToString_lowercase (src : list Z) :
  Forall (λ a, a ∈ list_ascii_of_string hex.hextable)
    (list_ascii_of_string (hex.EncodeToString src)).
Proof.
  assert (∀ n, hex.digit n ∈ list_ascii_of_string hex.hextable) as Hd.
  { intros n. unfold hex.digit. generalize (Z.to_nat n) as m. intros m.
    do 16 (destruct m as [|m]; [vm_compute; set_solver|]).
    vm_compute. set_solver. }
  induction src as [|v src IH]; simpl; [constructor|].
  constructor; [apply Hd|]. constructor; [apply Hd|]. apply IH.
Qed.

(** A hexadecimal string is written to a query as it is. *)
Lemma QueryEscape_hex (src : list Z) :
  url.QueryEscape (hex.EncodeToString src) = hex.EncodeToString src.
Proof.
  induction src as [|v src IH]; [done|].
  simpl. destruct (hex_digit_plain (Z.shiftr v 4)) as [-> ->].
  destruct (hex_digit_plain (Z.land v 15)) as [-> ->]. by rewrite IH.
Qed.

(** *** [Encode] on single-valued parameters *)

Lemma write_pair_nonempty (ke buf x : string) :
  buf ≠ "" →
  url.write_pair ke buf x = buf +:+ "&" +:+ ke +:+ "=" +:+ url.QueryEscape x.
Proof.
  intros Hb. unfold url.write_pair.
  destruct (String.eqb_spec buf "") as [->|_]; [done|].
  by rewrite app_assoc_string.
Qed.

Lemma app_nonempty_l (a b : string) : a ≠ "" → a +:+ b ≠ "".
Proof. by destruct a. Qed.

Lemma Encode_loop (v : Values) (ks : list string) (buf : string) :
  buf ≠ "" →
  single_valued v ks →
  fold_left
    (fun buf k => fold_left (url.write_pair (url.QueryEscape k))
                    (default [] (v !! k)) buf) ks buf
  = buf +:+ amp_pairs v ks.
Proof.
  revert buf. induction ks as [|k ks IH]; intros buf Hb Hs.
  - simpl. by rewrite app_empty_r.
  - destruct (Hs k) as [x Hx]; [left|].
    cbn [fold_left amp_pairs]. rewrite Hx. cbn [from_option fold_left id].
    rewrite write_pair_nonempty by done.
    rewrite IH.
    + unfold pair_string, url.Get. rewrite Hx. by rewrite !app_assoc_string.
    + by apply app_nonempty_l.
    + intros k' Hk'. apply Hs. by right.
Qed.

Lemma QueryEscape_pair_nonempty (a b : string) : a +:+ "=" +:+ b ≠ "".
Proof. by destruct a. Qed.

(** [Encode] writes single-valued parameters as the query string of
    their keys in ascending order. *)
Lemma Encode_query_string (v : Values) (ks : list string) :
  sort.Strings (range_keys v) = ks →
  single_valued v ks →
  Encode v = query_string v ks.
Proof.
  intros Hk Hs. unfold Encode, url.Encode_from. rewrite Hk.
  destruct ks as [|k ks]; [done|].
  destruct (Hs k) as [x Hx]; [left|].
  cbn [fold_left query_string]. rewrite Hx. cbn [from_option fold_left id].
  assert (url.write_pair (url.QueryEscape k) "" x = pair_string v k) as ->.
  { unfold url.write_pair, pair_string, url.Get. by rewrite Hx. }
  apply Encode_loop.
  - apply QueryEscape_pair_nonempty.
  - intros k' Hk'. apply Hs. by right.
Qed.

(** [Encode] does not depend on the order in which it visits the keys. *)
Lemma Encode_from_ranges (keys0 : list string) (v : Values) :
  ranges v keys0 → url.Encode_from keys0 v = Encode v.
Proof.
  intros Hr. unfold Encode, url.Encode_from. by rewrite (Strings_order _ _ Hr).
Qed.

(** *** The parameters of [AuthenticationURL] *)

Lemma auth_query_empty_frob (c : Client) (perms : Perms) :
  auth_query c perms "" = <["perms" := [perms]]> (<["api_key" := [APIKey c]]> ∅).
Proof. unfold auth_query, url.Set_. by destruct (decide ("" ≠ "")). Qed.

Lemma auth_query_frob (c : Client) (perms : Perms) (frob : string) :
  frob ≠ "" →
  auth_query c perms frob
  = <["frob" := [frob]]> (<["perms" := [perms]]> (<["api_key" := [APIKey c]]> ∅)).
Proof. intros Hf. unfold auth_query, url.Set_. by destruct (decide (frob ≠ "")). Qed.

Lemma three_keys_ascending (q : Values) :
  dom q = {["api_key"; "frob"; "perms"]} →
  ascending_keys q ["api_key"; "frob"; "perms"].
Proof.
  intros Hd. split; [compute_done|]. split; [|compute_done].
  intros k. rewrite Hd. set_solver.
Qed.

Lemma two_keys_ascending (q : Values) :
  dom q = {["api_key"; "perms"]} → ascending_keys q ["api_key"; "perms"].
Proof.
  intros Hd. split; [compute_done|]. split; [|compute_done].
  intros k. rewrite Hd. set_solver.
Qed.

Lemma signing_input_pairs (c : Client) (q : Values) (ks : list string) :
  ascending_keys q ks → signing_input c q = APISecret c +:+ pairs q ks.
Proof.
  intros Ha. unfold signing_input.
  rewrite (ascending_keys_sorted q (range_keys q) ks (ranges_range_keys q) Ha).
  apply string_to_sign_pairs.
Qed.

(** What [sign] digests in [AuthenticationURL]. *)
Lemma auth_signing_input (c : Client) (perms : Perms) (frob : string) :
  signing_input c (auth_query c perms frob)
  = APISecret c +:+ "api_key" +:+ APIKey c
      +:+ (if decide (frob = "") then "" else "frob" +:+ frob)
      +:+ "perms" +:+ perms.
Proof.
  destruct (decide (frob = "")) as [->|Hf].
  - rewrite (signing_input_pairs c _ ["api_key"; "perms"]).
    + rewrite auth_query_empty_frob. unfold pairs, url.Get.
      rewrite lookup_insert_ne, lookup_insert_eq, lookup_insert_eq by done.
      by rewrite app_empty_r.
    + apply two_keys_ascending. rewrite auth_query_empty_frob.
      rewrite !dom_insert_L, dom_empty_L. set_solver.
  - rewrite (signing_input_pairs c _ ["api_key"; "frob"; "perms"]).
    + rewrite auth_query_frob by done. unfold pairs, url.Get.
      rewrite (lookup_insert_ne _ "frob" "api_key"), (lookup_insert_ne _ "perms" "api_key") by done.
      rewrite !lookup_insert_eq.
      rewrite (lookup_insert_ne _ "frob" "perms"), lookup_insert_eq by done.
      by rewrite app_empty_r, !app_assoc_string.
    + apply three_keys_ascending. rewrite auth_query_frob by done.
      rewrite !dom_insert_L, dom_empty_L. set_solver.
Qed.

Lemma signed_auth_ascending (c : Client) (perms : Perms) (frob : string) :
  ascending_keys (sign c (auth_query c perms frob))
    (if decide (frob = "") then ["api_key"; "api_sig"; "perms"]
     else ["api_key"; "api_sig"; "frob"; "perms"]).
Proof.
  unfold sign, sign_from, url.Set_.
  destruct (decide (frob = "")) as [->|Hf].
  - rewrite auth_query_empty_frob. split; [compute_done|]. split; [|compute_done].
    intros k. rewrite !dom_insert_L, dom_empty_L. set_solver.
  - rewrite auth_query_frob by done. split; [compute_done|]. split; [|compute_done].
    intros k. rewrite !dom_insert_L, dom_empty_L. set_solver.
Qed.

Lemma signed_auth_lookup (c : Client) (perms : Perms) (frob k : string) :
  sign c (auth_query c perms frob) !! k =
    if decide (k = "api_sig") then
      Some [hex.EncodeToString (md5.Sum (signing_input c (auth_query c perms frob)))]
    else if decide (k = "frob") then
      (if decide (frob = "") then None else Some [frob])
    else if decide (k = "perms") then Some [perms]
    else if decide (k = "api_key") then Some [APIKey c]
    else None.
Proof.
  destruct (decide (k = "api_sig")) as [->|Hs]; [apply sign_lookup_api_sig|].
  rewrite sign_lookup_ne by done.
  destruct (decide (frob = "")) as [->|Hf].
  - rewrite auth_query_empty_frob.
    repeat case_decide; simplify_map_eq; done.
  - rewrite auth_query_frob by done.
    repeat case_decide; simplify_map_eq; done.
Qed.

Lemma signed_auth_single_valued (c : Client) (perms : Perms) (frob : string) :
  single_valued (sign c (auth_query c perms frob))
    (if decide (frob = "") then ["api_key"; "api_sig"; "perms"]
     else ["api_key"; "api_sig"; "frob"; "perms"]).
Proof.
  intros k Hk. rewrite signed_auth_lookup.
  destruct (decide (frob = "")) as [->|Hf];
    repeat (apply elem_of_cons in Hk as [->|Hk]; [simpl; eauto|]);
    by apply elem_of_nil in Hk.
Qed.

Lemma signed_auth_Encode (c : Client) (perms : Perms) (frob : string) :
  Encode (sign c (auth_query c perms frob))
  = "api_key=" +:+ url.QueryEscape (APIKey c)
      +:+ "&api_sig="
      +:+ hex.EncodeToString (md5.Sum (signing_input c (auth_query c perms frob)))
      +:+ (if decide (frob = "") then "" else "&frob=" +:+ url.QueryEscape frob)
      +:+ "&perms=" +:+ url.QueryEscape perms.
Proof.
  rewrite (Encode_query_string _ _
             (ascending_keys_sorted _ _ _ (ranges_range_keys _)
                (signed_auth_ascending c perms frob))
             (signed_auth_single_valued c perms frob)).
  destruct (decide (frob = "")) as [->|Hf];
    unfold query_string, amp_pairs, pair_string, url.Get;
    rewrite !signed_auth_lookup; simpl; [|rewrite (decide_False _ _ Hf)].
  - rewrite QueryEscape_hex, app_empty_r, !app_assoc_string.
    generalize (hex.EncodeToString
                  (md5.Sum (signing_input c (auth_query c perms "")))).
    reflexivity.
  - rewrite QueryEscape_hex, app_empty_r, !app_assoc_string.
    generalize (hex.EncodeToString
                  (md5.Sum (signing_input c (auth_query c perms frob)))).
    reflexivity.
Qed.

(** C5.  The query of the authorization URL holds [api_key], [perms]
    and [api_sig], and [frob] exactly when the frob is not empty; the
    signature is taken over the secret, [api_key] with the key, [frob]
    with the frob exactly when it is not empty, and [perms] with the
    permission; and the URL is that query, escaped, with its keys in
    ascending order, behind the HTTPS authorization endpoint. *)
Theorem AuthenticationURL_frob (c : Client) (perms : Perms) (frob : string) :
  let q := sign c (auth_query c perms frob) in
  let input :=
    APISecret c +:+ "api_key" +:+ APIKey c
      +:+ (if decide (frob = "") then "" else "frob" +:+ frob)
      +:+ "perms" +:+ perms in
  let sig := hex.EncodeToString (md5.Sum input) in
  signing_input c (auth_query c perms frob) = input
  ∧ q !! "api_key" = Some [APIKey c]
  ∧ q !! "perms" = Some [perms]
  ∧ q !! "api_sig" = Some [sig]
  ∧ q !! "frob" = (if decide (frob = "") then None else Some [frob])
  ∧ AuthenticationURL c perms frob
    = "https://api.rememberthemilk.com/services/auth/?api_key="
        +:+ url.QueryEscape (APIKey c)
        +:+ "&api_sig=" +:+ sig
        +:+ (if decide (frob = "") then "" else "&frob=" +:+ url.QueryEscape frob)
        +:+ "&perms=" +:+ url.QueryEscape perms.
Proof.
  intros q input sig. unfold q, sig, input.
  rewrite !signed_auth_lookup, auth_signing_input. simpl.
  do 5 (split; [done|]).
  unfold AuthenticationURL.
  rewrite signed_auth_Encode, auth_signing_input.
  generalize (hex.EncodeToString
    (md5.Sum (APISecret c +:+ "api_key" +:+ APIKey c
      +:+ (if decide (frob = "") then "" else "frob" +:+ frob)
      +:+ "perms" +:+ perms))).
  intros s. reflexivity.
Qed.


Example AuthenticationURL_read :
  AuthenticationURL bananas Read ""
  = "https://api.rememberthemilk.com/services/auth/?api_key=abc123&api_sig=16504bf3d668e17a6c9cb8ab58c9d0e4&perms=read".
Proof. by vm_compute. Qed.

Example AuthenticationURL_delete_frob :
  AuthenticationURL bananas Delete "a b&c"
  = "https://api.rememberthemilk.com/services/auth/?api_key=abc123&api_sig=bf973fa7873835aec1d0ccd89b24787c&frob=a+b%26c&perms=delete".
Proof. by vm_compute. Qed.

(** ** The parameters of [post] *)

Lemma post_params_lookup (entries : list (string * string)) (c : Client)
    (method format k : string) :
  post_params_from entries c method format !! k =
    if decide (k = "auth_token" ∧ AuthToken c ≠ "") then Some [AuthToken c]
    else if decide (k = "api_key") then Some [APIKey c]
    else if decide (k = "format" ∧ format ≠ "") then Some [format]
    else if decide (k = "method") then Some [method]
    else if decide (k = "v") then Some ["2"]
    else set_all entries ∅ !! k.
Proof.
  unfold post_params_from, url.Set_.
  repeat case_decide; destruct_and?; simplify_map_eq; try done;
    repeat (rewrite lookup_insert_ne by naive_solver); try done.
Qed.

(** The parameters of [post] do not depend on the order in which the
    caller's parameters are visited. *)
Lemma post_params_from_ranges (entries : list (string * string)) (c : Client)
    (method : string) (args : Args) (format : string) :
  entries ≡ₚ map_to_list args →
  post_params_from entries c method format = post_params c method args format.
Proof.
  intros Hp. unfold post_params, post_params_from.
  rewrite (set_all_Permutation (map_to_list args) entries); [done| |done].
  apply NoDup_fst_map_to_list.
Qed.

Lemma control_values_params (entries : list (string * string)) (c : Client)
    (method format : string) :
  control_values c method format (set_all entries ∅)
    (post_params_from entries c method format).
Proof.
  unfold control_values. rewrite !post_params_lookup.
  repeat split; repeat case_decide; destruct_and?; try done; naive_solver.
Qed.

(** C6.  Whatever the caller's parameters are, in the merged
    parameter set of [post], before and after it is signed, [v],
    [method] and [api_key] hold the version, the method and the key of
    the client, [format] holds the format when one is given and
    [auth_token] holds the token when the client has one: an entry of
    the caller under one of these keys is overwritten.  (Without a
    format, or without a token, the caller's entry under that key
    stays.) *)
Theorem post_params_reserved (entries : list (string * string))
    (keys0 : list string) (c : Client) (method format : string) :
  control_values c method format (set_all entries ∅)
    (post_params_from entries c method format)
  ∧ control_values c method format (set_all entries ∅)
      (sign_from keys0 c (post_params_from entries c method format)).
Proof.
  split; [apply control_values_params|].
  pose proof (control_values_params entries c method format) as H.
  unfold control_values in *. by rewrite !sign_from_lookup_ne.
Qed.

(** A caller who passes every reserved key loses each of them. *)
Example post_params_collision :
  let caller := [("v", "1"); ("method", "x"); ("api_key", "stolen");
                 ("format", "json"); ("auth_token", "t"); ("list_id", "7")] in
  let c := {| APIKey := "abc123"; APISecret := "BANANAS"; AuthToken := "tok";
              HTTPClient := None; DebugLogger := false |} in
  post_params_from caller c "rtm.tasks.getList" "xml"
  = set_all [("list_id", "7"); ("v", "2"); ("method", "rtm.tasks.getList");
             ("format", "xml"); ("api_key", "abc123"); ("auth_token", "tok")] ∅.
Proof. vm_compute. reflexivity. Qed.

(** ** [post] *)

Ltac post_steps :=
  unfold post, NewRequest, run, bind, or_return, emit, return_, ret, defer.

(** [post] never looks at [xml.Unmarshal]. *)
Lemma post_with_Unmarshal (L : Lib) (u : string -> rsp * option string)
    (c : Client) (ctx : Context) (method : string) (args : Args) (format : string) :
  post (with_Unmarshal L u) c ctx method args format = post L c ctx method args format.
Proof. reflexivity. Qed.

(** The request is refused before anything is sent. *)
Lemma post_bad_url (L : Lib) (c : Client) (ctx : Context) (method : string)
    (args : Args) (format msg : string) :
  parse_error L (post_url c method args format) = Some msg →
  post L c ctx method args format = ([], ("", Some (LibError net_url msg))).
Proof. intros Hp. post_steps. by rewrite Hp. Qed.

(** A response with a status other than 200, received without an
    error of the transport: the status is reported, unless the debug
    logger is set and the response cannot be dumped. *)
Lemma post_status (L : Lib) (c : Client) (ctx : Context) (method : string)
    (args : Args) (format : string) (resp : http.Response) :
  parse_error L (post_url c method args format) = None →
  (DebugLogger c = true →
   ∃ b, DumpRequestOut L (post_request c ctx method args format) = inl b) →
  http.Do (http_ L c) (post_request c ctx method args format) = http.DoOk resp →
  http.StatusCode resp ≠ 200 →
  snd (post L c ctx method args format)
  = ("", Some (match DebugLogger c, DumpResponse L resp with
               | true, inr msg => LibError httputil msg
               | _, _ => Errorf "HTTP status code %d" (OfInt (http.StatusCode resp))
               end)).
Proof.
  intros Hp Hd Hdo Hs. post_steps. rewrite Hp. fold (post_request c ctx method args format).
  rewrite Hdo. simpl.
  destruct (DebugLogger c).
  - destruct Hd as [b ->]; [done|]. simpl.
    destruct (DumpResponse L resp) as [b'|msg]; simpl; [|done].
    by rewrite (decide_True _ _ Hs).
  - simpl. by rewrite (decide_True _ _ Hs).
Qed.

(** [post] succeeds with the bytes of the body: the request is built
    and goes out, the transport answers 200 without an error, the body
    reads to its end, and the dumps succeed if the logger is set. *)
Lemma post_success (L : Lib) (c : Client) (ctx : Context) (method : string)
    (args : Args) (format : string) (resp : http.Response) :
  parse_error L (post_url c method args format) = None →
  (DebugLogger c = true →
   (∃ b, DumpRequestOut L (post_request c ctx method args format) = inl b)
   ∧ ∃ b, Response_Write L resp = inl b) →
  http.Do (http_ L c) (post_request c ctx method args format) = http.DoOk resp →
  http.StatusCode resp = 200 →
  http.read_err (http.RespBody resp) = None →
  snd (post L c ctx method args format) = (http.content (http.RespBody resp), None).
Proof.
  intros Hp Hd Hdo Hs Hr. post_steps. rewrite Hp.
  fold (post_request c ctx method args format). rewrite Hdo. simpl.
  destruct (DebugLogger c).
  - destruct Hd as [[b ->] [b' Hw]]; [done|]. simpl.
    unfold DumpResponse. rewrite Hr, Hw. simpl.
    destruct (decide (http.StatusCode resp ≠ 200)) as [Hn|_]; [done|].
    simpl. unfold ReadAll. by rewrite Hr.
  - simpl. destruct (decide (http.StatusCode resp ≠ 200)) as [Hn|_]; [done|].
    simpl. unfold ReadAll. by rewrite Hr.
Qed.

(** ** [Call] *)

Lemma Call_trace (L : Lib) (c : Client) (ctx : Context) (method : string)
    (args : Args) :
  fst (Call L c ctx method args) = fst (post L c ctx method args "").
Proof.
  unfold Call. destruct (post L c ctx method args "") as [t [b [e|]]]; done.
Qed.

Lemma Call_result (L : Lib) (c : Client) (ctx : Context) (method : string)
    (args : Args) :
  snd (Call L c ctx method args) =
    match snd (post L c ctx method args "") with
    | (_, Some e) => ("", Some e)
    | (b, None) => Call_body L b
    end.
Proof.
  unfold Call. destruct (post L c ctx method args "") as [t [b [e|]]]; done.
Qed.

(** C3, as the code has it.  When [post] hands the body [b] to the
    decoding part of [Call], the call ends in exactly one of four
    ways: with the decoder's error if [b] does not decode (whatever
    the decoder left in the struct); otherwise, if there is an [err]
    element, with the service's error of that element's code and
    message, whatever [stat] is; otherwise, if [stat] is [ok], with
    the raw inner XML of the root as the payload; and otherwise (no
    [err] element, a [stat] other than [ok]) with the plain error of
    [fmt.Errorf("unexpected stat %q", stat)], which is none of the
    first three. *)
Theorem Call_outcomes (L : Lib) (c : Client) (ctx : Context) (method : string)
    (args : Args) (b : string) (r : rsp) (err : option string) :
  snd (post L c ctx method args "") = (b, None) →
  Unmarshal L b = (r, err) →
  outcome_of (snd (Call L c ctx method args))
  = match err with
    | Some msg => DecodeError msg
    | None =>
        match Err r with
        | Some e => ProtocolError (Code e) (Msg e)
        | None =>
            if decide (Stat r = "ok") then Payload (Inner r)
            else OtherFailure (Errorf "unexpected stat %q" (OfString (Stat r)))
        end
    end.
Proof.
  intros Hp Hu. rewrite Call_result, Hp. unfold Call_body. rewrite Hu.
  unfold Call_switch. destruct err as [msg|]; [done|].
  destruct (Err r) as [e|]; [done|].
  destruct (decide (Stat r = "ok")) as [Hs|Hs].
  - by rewrite decide_False by (by intros []).
  - by rewrite decide_True.
Qed.

Lemma Call_outcomes_witness :
  outcome_of (snd (Call sample_lib (sample_client (Some (server 200 (whole body_fail))) false)
                     Background "rtm.test.login" ∅))
  = ProtocolError 98 "Login failed"
  ∧ outcome_of (snd (Call sample_lib (sample_client (Some (server 200 (whole body_ok))) false)
                       Background "rtm.test.echo" ∅))
    = Payload "<x>1</x>"
  ∧ outcome_of (snd (Call sample_lib (sample_client (Some (server 200 (whole "not XML"))) false)
                       Background "rtm.test.echo" ∅))
    = DecodeError "EOF"
  ∧ outcome_of (snd (Call sample_lib (sample_client (Some (server 200 (whole body_weird))) false)
                       Background "rtm.test.echo" ∅))
    = OtherFailure (Errorf "unexpected stat %q" (OfString "weird")).
Proof.
  split; [|split; [|split]].
  - rewrite (Call_outcomes sample_lib
               (sample_client (Some (server 200 (whole body_fail))) false)
               Background "rtm.test.login" ∅ body_fail
               {| Stat := "fail"; Err := Some {| Code := 98; Msg := "Login failed" |};
                  Inner := body_err_inner |} None); by vm_compute.
  - rewrite (Call_outcomes sample_lib
               (sample_client (Some (server 200 (whole body_ok))) false)
               Background "rtm.test.echo" ∅ body_ok
               {| Stat := "ok"; Err := None; Inner := "<x>1</x>" |} None);
      by vm_compute.
  - rewrite (Call_outcomes sample_lib
               (sample_client (Some (server 200 (whole "not XML"))) false)
               Background "rtm.test.echo" ∅ "not XML"
               {| Stat := ""; Err := None; Inner := "" |} (Some "EOF"));
      by vm_compute.
  - rewrite (Call_outcomes sample_lib
               (sample_client (Some (server 200 (whole body_weird))) false)
               Background "rtm.test.echo" ∅ body_weird
               {| Stat := "weird"; Err := None; Inner := "" |} None);
      by vm_compute.
Defined.

(** C3 as stated fails: for the body [<rsp stat="weird"></rsp>], which
    decodes and has no [err] element, the call ends in none of the
    three outcomes of the claim. *)
Lemma weird_stat_is_none_of_three :
  let o := outcome_of
             (snd (Call sample_lib
                     (sample_client (Some (server 200 (whole body_weird))) false)
                     Background "rtm.test.echo" ∅)) in
  (∀ msg, o ≠ DecodeError msg)
  ∧ (∀ code msg, o ≠ ProtocolError code msg)
  ∧ (∀ p, o ≠ Payload p).
Proof.
  assert (outcome_of
            (snd (Call sample_lib
                    (sample_client (Some (server 200 (whole body_weird))) false)
                    Background "rtm.test.echo" ∅))
          = OtherFailure (Errorf "unexpected stat %q" (OfString "weird"))) as ->
    by (by vm_compute).
  by repeat split.
Qed.

(** C4, as the code has it.  When the body decodes, has no [err]
    element and a [stat] other than [ok], the call fails with the
    error of [fmt.Errorf("unexpected stat %q", stat)]: an error made
    from the observed status, which is not an [Error] of this package
    and has no code. *)
Theorem Call_unexpected_stat (L : Lib) (c : Client) (ctx : Context)
    (method : string) (args : Args) (b : string) (r : rsp) :
  snd (post L c ctx method args "") = (b, None) →
  Unmarshal L b = (r, None) →
  Err r = None →
  Stat r ≠ "ok" →
  snd (Call L c ctx method args)
  = ("", Some (Errorf "unexpected stat %q" (OfString (Stat r))))
  ∧ ∀ code msg,
      outcome_of (snd (Call L c ctx method args)) ≠ ProtocolError code msg.
Proof.
  intros Hp Hu He Hs.
  assert (snd (Call L c ctx method args)
          = ("", Some (Errorf "unexpected stat %q" (OfString (Stat r))))) as ->.
  { rewrite Call_result, Hp. unfold Call_body. rewrite Hu.
    unfold Call_switch. rewrite He. by rewrite decide_True. }
  done.
Qed.

Lemma Call_unexpected_stat_witness :
  snd (Call sample_lib (sample_client (Some (server 200 (whole body_weird))) false)
         Background "rtm.test.echo" ∅)
  = ("", Some (Errorf "unexpected stat %q" (OfString "weird"))).
Proof.
  apply (Call_unexpected_stat sample_lib
           (sample_client (Some (server 200 (whole body_weird))) false)
           Background "rtm.test.echo" ∅ body_weird
           {| Stat := "weird"; Err := None; Inner := "" |});
    [by vm_compute..|discriminate].
Defined.

(** C4 as stated fails: for the body [<rsp stat="weird"></rsp>] the
    error of the call is no [Error] with a code. *)
Lemma unexpected_stat_has_no_code :
  ¬ ∃ e : Error,
      snd (Call sample_lib (sample_client (Some (server 200 (whole body_weird))) false)
             Background "rtm.test.echo" ∅)
      = ("", Some (RtmError e)).
Proof. intros [e He]. vm_compute in He. discriminate He. Qed.

(** C10.  When [post] returns a body that decodes to a root with
    [stat] equal to [ok], no [err] element and no inner content, the
    call succeeds with the empty payload. *)
Theorem Call_empty_payload (L : Lib) (c : Client) (ctx : Context)
    (method : string) (args : Args) (b : string) (r : rsp) :
  snd (post L c ctx method args "") = (b, None) →
  Unmarshal L b = (r, None) →
  Stat r = "ok" →
  Err r = None →
  Inner r = "" →
  snd (Call L c ctx method args) = ("", None).
Proof.
  intros Hp Hu Hs He Hi. rewrite Call_result, Hp. unfold Call_body. rewrite Hu.
  unfold Call_switch. rewrite He, Hi. by rewrite decide_False by (by intros []).
Qed.

Lemma Call_empty_payload_witness :
  snd (Call sample_lib (sample_client (Some (server 200 (whole body_empty))) true)
         Background "rtm.test.echo" ∅)
  = ("", None).
Proof.
  apply (Call_empty_payload sample_lib
           (sample_client (Some (server 200 (whole body_empty))) true)
           Background "rtm.test.echo" ∅ body_empty
           {| Stat := "ok"; Err := None; Inner := "" |}); by vm_compute.
Defined.

(** C7, as the code has it.  When the request goes out and the
    transport returns, without an error, a response with a status
    other than 200, the call fails, whatever the body is and whatever
    [xml.Unmarshal] would make of it: with the error of
    [fmt.Errorf("HTTP status code %d", status)], or, when the debug
    logger is set and the response cannot be dumped, with the error of
    the dump. *)
Theorem Call_status (L : Lib) (u : string -> rsp * option string) (c : Client)
    (ctx : Context) (method : string) (args : Args) (resp : http.Response) :
  parse_error L (post_url c method args "") = None →
  (DebugLogger c = true →
   ∃ b, DumpRequestOut L (post_request c ctx method args "") = inl b) →
  http.Do (http_ L c) (post_request c ctx method args "") = http.DoOk resp →
  http.StatusCode resp ≠ 200 →
  snd (Call (with_Unmarshal L u) c ctx method args)
  = ("", Some (match DebugLogger c, DumpResponse L resp with
               | true, inr msg => LibError httputil msg
               | _, _ => Errorf "HTTP status code %d" (OfInt (http.StatusCode resp))
               end)).
Proof.
  intros Hp Hd Hdo Hs. rewrite Call_result, post_with_Unmarshal.
  by rewrite (post_status L c ctx method args "" resp Hp Hd Hdo Hs).
Qed.

Lemma Call_status_witness :
  snd (Call (with_Unmarshal sample_lib sample_Unmarshal)
         (sample_client (Some (server 500 (whole body_ok))) true)
         Background "rtm.test.echo" ∅)
  = ("", Some (Errorf "HTTP status code %d" (OfInt 500))).
Proof.
  apply (Call_status sample_lib sample_Unmarshal
           (sample_client (Some (server 500 (whole body_ok))) true)
           Background "rtm.test.echo" ∅ (response 500 (whole body_ok)));
    [reflexivity|intros _; eexists; reflexivity|reflexivity|discriminate].
Defined.

(** C7 as stated fails: with the debug logger set, a response with
    status 500 whose body breaks off makes the call fail with the
    error of the dump, which does not carry the status. *)
Lemma status_lost_when_dump_fails :
  snd (Call sample_lib (sample_client (Some (server 500 (truncated "<rsp stat="))) true)
         Background "rtm.test.echo" ∅)
  = ("", Some (LibError httputil "unexpected EOF")).
Proof. by vm_compute. Qed.

(** C8, as the code has it.  With the debug logger set, nothing is
    logged or sent when the request cannot be built or dumped.
    Otherwise the dump of the request is logged once, before the
    exchange; after the exchange the dump of the response is logged
    once if the transport returned a response and it can be dumped,
    and nothing more is logged if there is no response or its dump
    fails.  When the response has status 200 and was dumped, [post]
    returns the bytes of its body as they were received. *)
Theorem post_emissions (L : Lib) (c : Client) (ctx : Context) (method : string)
    (args : Args) (format : string) :
  DebugLogger c = true →
  let req := post_request c ctx method args format in
  fst (post L c ctx method args format)
  = match parse_error L (post_url c method args format), DumpRequestOut L req with
    | Some _, _ | None, inr _ => []
    | None, inl breq =>
        Logged breq :: RoundTrip req ::
          match http.resp_of (http.Do (http_ L c) req) with
          | None => []
          | Some resp =>
              match DumpResponse L resp with
              | inl bresp => [Logged bresp; Closed]
              | inr _ => [Closed]
              end
          end
    end
  ∧ ∀ resp bresp,
      parse_error L (post_url c method args format) = None →
      (∃ breq, DumpRequestOut L req = inl breq) →
      http.Do (http_ L c) req = http.DoOk resp →
      http.StatusCode resp = 200 →
      DumpResponse L resp = inl bresp →
      snd (post L c ctx method args format)
      = (http.content (http.RespBody resp), None).
Proof.
  intros Hd req. split.
  - post_steps. destruct (parse_error L _) as [msg|]; [done|].
    fold (post_request c ctx method args format). fold req. rewrite Hd.
    destruct (DumpRequestOut L req) as [breq|msg]; [|done]. simpl.
    destruct (http.Do (http_ L c) req) as [resp|[resp|] err]; simpl.
    + destruct (DumpResponse L resp) as [bresp|msg]; simpl; [|done].
      by destruct (decide (http.StatusCode resp ≠ 200)).
    + by destruct (DumpResponse L resp) as [bresp|msg].
    + done.
  - intros resp bresp Hp Hq Hdo Hs Hw. unfold DumpResponse in Hw.
    destruct (http.read_err (http.RespBody resp)) as [msg|] eqn:Hr; [done|].
    apply (post_success L c ctx method args format resp); eauto.
Qed.

Lemma post_emissions_witness :
  logged (fst (post sample_lib (sample_client (Some (server 200 (whole body_ok))) true)
                 Background "rtm.test.echo" ∅ ""))
  = ["POST " +:+ post_url (sample_client None true) "rtm.test.echo" ∅ "";
     "HTTP/1.1 200 " +:+ body_ok]
  ∧ snd (post sample_lib (sample_client (Some (server 200 (whole body_ok))) true)
           Background "rtm.test.echo" ∅ "")
    = (body_ok, None).
Proof.
  destruct (post_emissions sample_lib
              (sample_client (Some (server 200 (whole body_ok))) true)
              Background "rtm.test.echo" ∅ "" eq_refl) as [Ht Hb].
  split.
  - rewrite Ht. by vm_compute.
  - apply (Hb (response 200 (whole body_ok)) ("HTTP/1.1 200 " +:+ body_ok));
      [reflexivity|eexists; reflexivity|reflexivity..].
Defined.

(** C8 as stated fails: with the debug logger set and a transport
    that finds no network, the call logs the request and nothing
    else, so no response is emitted in this call. *)
Lemma no_response_no_emission :
  logged (fst (Call sample_lib (sample_client None true) Background "rtm.test.echo" ∅))
  = ["POST " +:+ post_url (sample_client None true) "rtm.test.echo" ∅ ""]
  ∧ snd (Call sample_lib (sample_client None true) Background "rtm.test.echo" ∅)
    = ("", Some (LibError net_http "dial tcp: connection refused")).
Proof. by vm_compute. Qed.

(** * Further properties of the code *)

(** ** The shape of a signature *)

Lemma le_bytes_length (n : nat) (x : Z) : length (md5.le_bytes n x) = n.
Proof. unfold md5.le_bytes. by rewrite length_map, length_seq. Qed.

Lemma md5_Sum_length (data : string) : length (md5.Sum data) = 16%nat.
Proof.
  unfold md5.Sum. destruct (md5.blocks _ _ _) as [a b c d].
  by rewrite !length_app, !le_bytes_length.
Qed.

Lemma EncodeToString_length (src : list Z) :
  String.length (hex.EncodeToString src) = (2 * length src)%nat.
Proof. induction src as [|v src IH]; simpl; [done|]. rewrite IH. lia. Qed.

(** X1.  Whatever the parameters and the secret are, [sign] leaves
    exactly one value under [api_sig], and it is a string of 32
    lowercase hexadecimal digits. *)
Theorem sign_signature_shape (keys0 : list string) (c : Client) (q : Values) :
  ∃ sig, sign_from keys0 c q !! "api_sig" = Some [sig]
         ∧ String.length sig = 32%nat
         ∧ Forall (λ a, a ∈ list_ascii_of_string "0123456789abcdef")
             (list_ascii_of_string sig).
Proof.
  eexists. split; [|split].
  - unfold sign_from, url.Set_. apply lookup_insert_eq.
  - by rewrite EncodeToString_length, md5_Sum_length.
  - apply EncodeToString_lowercase.
Qed.

(** ** Keys and values run together in the signature *)

Lemma singleton_ascending (k : string) (x : list string) :
  ascending_keys {[k := x]} [k].
Proof.
  split; [apply NoDup_singleton|]. split; [|repeat constructor].
  intros k'. rewrite dom_singleton_L. set_solver.
Qed.

Lemma singleton_signing_input (c : Client) (k v : string) :
  signing_input c {[k := [v]]} = APISecret c +:+ k +:+ v.
Proof.
  rewrite (signing_input_pairs c _ [k] (singleton_ascending k [v])).
  unfold pairs, url.Get. by rewrite lookup_singleton_eq, app_empty_r.
Qed.

(** X2.  [sign] writes each key and its value into the digested string
    with nothing between them: a parameter whose key is [a ++ b] and
    whose value is [d] gets the same signature as the parameter with
    key [a] and value [b ++ d]. *)
Theorem sign_key_value_boundary (c : Client) (a b d : string) :
  sign c {[a +:+ b := [d]]} !! "api_sig" = sign c {[a := [b +:+ d]]} !! "api_sig".
Proof.
  rewrite !sign_lookup_api_sig, !singleton_signing_input.
  by rewrite !app_assoc_string.
Qed.

(** ** [Error.Error] *)

Lemma pretty_N_char_decimal (x : N) : decimal_char (pretty_N_char x).
Proof.
  unfold decimal_char.
  destruct x as [|p]; [vm_compute; set_solver|].
  do 4 (destruct p as [p|p|]; try (vm_compute; set_solver)).
Qed.

Lemma pretty_N_go_decimal (x : N) (s : string) :
  Forall decimal_char (list_ascii_of_string s) →
  Forall decimal_char (list_ascii_of_string (pretty_N_go x s)).
Proof.
  revert s. induction (N.lt_wf_0 x) as [x _ IH]; intros s Hs.
  destruct (decide (x = 0)%N) as [->|Hx]; [by rewrite pretty_N_go_0|].
  rewrite pretty_N_go_step by lia. apply IH.
  - apply N.div_lt; lia.
  - simpl. constructor; [apply pretty_N_char_decimal|done].
Qed.

Lemma pretty_N_decimal (x : N) :
  Forall decimal_char (list_ascii_of_string (pretty x)).
Proof.
  unfold pretty, pretty_N. destruct (decide (x = 0)%N).
  - by repeat constructor.
  - apply pretty_N_go_decimal. constructor.
Qed.

Lemma pretty_Z_decimal (x : Z) :
  Forall decimal_char (list_ascii_of_string (pretty x)).
Proof.
  destruct x as [|p|p].
  - by repeat constructor.
  - apply (pretty_N_decimal (N.pos p)).
  - change (pretty (Z.neg p)) with (String "-" (pretty (N.pos p))).
    simpl. constructor; [vm_compute; set_solver|apply pretty_N_decimal].
Qed.

(** Two strings of decimal characters followed by a colon and the rest
    are equal only part by part. *)
Lemma decimal_colon_split (s1 s2 r1 r2 : string) :
  Forall decimal_char (list_ascii_of_string s1) →
  Forall decimal_char (list_ascii_of_string s2) →
  s1 +:+ String ":" r1 = s2 +:+ String ":" r2 →
  s1 = s2 ∧ r1 = r2.
Proof.
  assert (¬ decimal_char ":") as Hc by (vm_compute; set_solver).
  revert s2. induction s1 as [|a s1 IH]; intros [|a2 s2] H1 H2 Heq.
  - by simplify_eq/=.
  - simpl in *. apply Forall_cons in H2 as [H2 _].
    change (String ":" r1 = String a2 (s2 +:+ String ":" r2)) in Heq.
    by simplify_eq.
  - simpl in *. apply Forall_cons in H1 as [H1 _].
    change (String a (s1 +:+ String ":" r1) = String ":" r2) in Heq.
    by simplify_eq.
  - simpl in *. apply Forall_cons in H1 as [_ H1]. apply Forall_cons in H2 as [_ H2].
    change (String a (s1 +:+ String ":" r1) = String a2 (s2 +:+ String ":" r2)) in Heq.
    simplify_eq. destruct (IH s2 H1 H2) as [-> ->]; done.
Qed.

(** X3.  The text of an [Error] determines it: two errors with the
    same [Error()] string have the same code and the same message. *)
Theorem Error_Error_inj (e1 e2 : Error) :
  Error_Error e1 = Error_Error e2 → e1 = e2.
Proof.
  destruct e1 as [c1 m1], e2 as [c2 m2]. unfold Error_Error. simpl.
  intros Heq.
  destruct (decimal_colon_split (pretty c1) (pretty c2) (String " " m1) (String " " m2))
    as [Hc Hm]; [apply pretty_Z_decimal..|exact Heq|].
  apply (inj pretty) in Hc. by simplify_eq.
Qed.

Lemma Error_Error_inj_witness :
  {| Code := 98; Msg := "Login failed" |} = {| Code := 98; Msg := "Login failed" |}.
Proof.
  apply (Error_Error_inj {| Code := 98; Msg := "Login failed" |}
           {| Code := 98; Msg := "Login failed" |}).
  vm_compute. reflexivity.
Defined.

(** ** The parameters that [post] sends *)

(** X4.  Every parameter of the caller whose key is none of [v],
    [method], [format], [api_key], [auth_token] and [api_sig] is in the
    signed parameter set of [post] with its value, alone and unchanged,
    and [post] adds no parameter under any other such key. *)
Theorem post_params_passthrough (keys0 : list string) (c : Client)
    (method : string) (args : Args) (format k : string) :
  k ∉ ["v"; "method"; "format"; "api_key"; "auth_token"; "api_sig"] →
  sign_from keys0 c (post_params c method args format) !! k
  = (λ v, [v]) <$> args !! k.
Proof.
  intros Hk. rewrite sign_from_lookup_ne by set_solver.
  unfold post_params. rewrite post_params_lookup.
  repeat (rewrite decide_False by set_solver).
  by rewrite set_all_map_to_list, lookup_fmap.
Qed.

Lemma post_params_passthrough_witness :
  sign_from [] bananas
    (post_params bananas "rtm.tasks.getList" {["list_id" := "7"]} "") !! "list_id"
  = Some ["7"]
  ∧ sign_from [] bananas
      (post_params bananas "rtm.tasks.getList" {["list_id" := "7"]} "") !! "filter"
    = None.
Proof.
  split.
  - rewrite (post_params_passthrough [] bananas "rtm.tasks.getList"
               {["list_id" := "7"]} "" "list_id"); [reflexivity|].
    compute_done.
  - rewrite (post_params_passthrough [] bananas "rtm.tasks.getList"
               {["list_id" := "7"]} "" "filter"); [reflexivity|].
    compute_done.
Defined.

(** Every parameter of the signed set of [post] has one value. *)
Lemma post_params_single (c : Client) (method : string) (args : Args)
    (format k : string) (vs : list string) :
  sign c (post_params c method args format) !! k = Some vs → ∃ x, vs = [x].
Proof.
  destruct (decide (k = "api_sig")) as [->|Hk].
  - rewrite sign_lookup_api_sig. intros [= <-]. eauto.
  - rewrite sign_lookup_ne by done. unfold post_params.
    rewrite post_params_lookup, set_all_map_to_list, lookup_fmap.
    repeat case_decide; try (intros [= <-]; eauto).
    destruct (args !! k) as [v|]; simpl; [|done]. intros [= <-]. eauto.
Qed.

Lemma query_string_nonempty (v : Values) (k : string) (ks : list string) :
  query_string v (k :: ks) ≠ "".
Proof.
  unfold query_string, pair_string. rewrite app_assoc_string.
  destruct (url.QueryEscape k); done.
Qed.

(** The URL of [post] with the keys as [Encode] sorts them. *)
Lemma post_url_sorted (c : Client) (method : string) (args : Args)
    (format : string) :
  post_url c method args format
  = "https://api.rememberthemilk.com/services/rest/?"
      +:+ query_string (sign c (post_params c method args format))
            (sort.Strings (range_keys (sign c (post_params c method args format)))).
Proof.
  unfold post_url.
  set (q := sign c (post_params c method args format)).
  assert (single_valued q (sort.Strings (range_keys q))) as Hs.
  { intros k Hk. rewrite Strings_Permutation in Hk.
    apply elem_of_range_keys, elem_of_dom in Hk as [vs Hvs].
    destruct (post_params_single _ _ _ _ _ _ Hvs) as [x ->]. eauto. }
  rewrite (Encode_query_string q _ eq_refl Hs).
  assert ("api_sig" ∈ sort.Strings (range_keys q)) as Hin.
  { rewrite Strings_Permutation. apply elem_of_range_keys, elem_of_dom.
    unfold q. rewrite sign_lookup_api_sig. eauto. }
  destruct (sort.Strings (range_keys q)) as [|k ks]; [by apply elem_of_nil in Hin|].
  pose proof (query_string_nonempty q k ks) as Hne. revert Hne.
  generalize (query_string q (k :: ks)). intros s Hne.
  unfold url.String_. simpl.
  destruct (String.eqb_spec s "") as [He|_]; [done|]. reflexivity.
Qed.

(** X5.  The URL that [post] requests is the fixed HTTPS call endpoint,
    a question mark, and the signed parameters as escaped [key=value]
    pairs joined by ampersands, in ascending byte order of their
    keys. *)
Theorem post_url_query (c : Client) (method : string) (args : Args)
    (format : string) (ks : list string) :
  ascending_keys (sign c (post_params c method args format)) ks →
  post_url c method args format
  = "https://api.rememberthemilk.com/services/rest/?"
      +:+ query_string (sign c (post_params c method args format)) ks.
Proof.
  intros Ha. rewrite post_url_sorted.
  by rewrite (ascending_keys_sorted _ _ ks (ranges_range_keys _) Ha).
Qed.

(** *** A call without arguments *)

Lemma post_params_no_args (c : Client) (method : string) :
  post_params c method ∅ ""
  = if decide (AuthToken c = "") then
      <["api_key" := [APIKey c]]> (<["method" := [method]]> (<["v" := ["2"]]> ∅))
    else
      <["auth_token" := [AuthToken c]]>
        (<["api_key" := [APIKey c]]> (<["method" := [method]]> (<["v" := ["2"]]> ∅))).
Proof.
  unfold post_params, post_params_from, set_all, url.Set_.
  rewrite map_to_list_empty. simpl.
  destruct (decide (AuthToken c = "")) as [He|Hne].
  - by rewrite decide_False by (by intros []).
  - by rewrite decide_True.
Qed.

Lemma no_args_ascending (c : Client) (method : string) :
  ascending_keys (sign c (post_params c method ∅ ""))
    (if decide (AuthToken c = "") then ["api_key"; "api_sig"; "method"; "v"]
     else ["api_key"; "api_sig"; "auth_token"; "method"; "v"]).
Proof.
  unfold sign, sign_from, url.Set_. rewrite post_params_no_args.
  destruct (decide (AuthToken c = "")) as [He|Hne];
    (split; [compute_done|]; split; [|compute_done]);
    intros k; rewrite !dom_insert_L, dom_empty_L; set_solver.
Qed.

Lemma no_args_lookup (c : Client) (method k : string) :
  post_params c method ∅ "" !! k =
    if decide (k = "auth_token") then
      (if decide (AuthToken c = "") then None else Some [AuthToken c])
    else if decide (k = "api_key") then Some [APIKey c]
    else if decide (k = "method") then Some [method]
    else if decide (k = "v") then Some ["2"]
    else None.
Proof.
  rewrite post_params_no_args.
  destruct (decide (AuthToken c = "")); repeat case_decide; simplify_map_eq; done.
Qed.

(** What [sign] digests for a call without arguments. *)
Lemma no_args_signing_input (c : Client) (method : string) :
  signing_input c (post_params c method ∅ "")
  = APISecret c +:+ "api_key" +:+ APIKey c
      +:+ (if decide (AuthToken c = "") then "" else "auth_token" +:+ AuthToken c)
      +:+ "method" +:+ method +:+ "v2".
Proof.
  destruct (decide (AuthToken c = "")) as [He|Hne].
  - rewrite (signing_input_pairs c _ ["api_key"; "method"; "v"]).
    + unfold pairs, url.Get. rewrite !no_args_lookup. simpl.
      reflexivity.
    + rewrite post_params_no_args, (decide_True _ _ He).
      split; [compute_done|]. split; [|compute_done].
      intros k. rewrite !dom_insert_L, dom_empty_L. set_solver.
  - rewrite (signing_input_pairs c _ ["api_key"; "auth_token"; "method"; "v"]).
    + unfold pairs, url.Get. rewrite !no_args_lookup. simpl.
      rewrite (decide_False _ _ Hne). rewrite !app_assoc_string. reflexivity.
    + rewrite post_params_no_args, (decide_False _ _ Hne).
      split; [compute_done|]. split; [|compute_done].
      intros k. rewrite !dom_insert_L, dom_empty_L. set_solver.
Qed.

(** X6.  For a call without arguments and without a format the URL
    that [post] requests is the call endpoint with [api_key],
    [api_sig], [auth_token] exactly when the client has a token,
    [method] and [v=2], in this order, and the signature is the digest
    of the secret followed by [api_key] with the key, [auth_token]
    with the token exactly when there is one, [method] with the method
    and [v2]. *)
Theorem post_url_no_args (c : Client) (method : string) :
  let input :=
    APISecret c +:+ "api_key" +:+ APIKey c
      +:+ (if decide (AuthToken c = "") then "" else "auth_token" +:+ AuthToken c)
      +:+ "method" +:+ method +:+ "v2" in
  post_url c method ∅ ""
  = "https://api.rememberthemilk.com/services/rest/?api_key="
      +:+ url.QueryEscape (APIKey c)
      +:+ "&api_sig=" +:+ hex.EncodeToString (md5.Sum input)
      +:+ (if decide (AuthToken c = "") then ""
           else "&auth_token=" +:+ url.QueryEscape (AuthToken c))
      +:+ "&method=" +:+ url.QueryEscape method +:+ "&v=2".
Proof.
  intros input. unfold input.
  rewrite post_url_sorted.
  rewrite (ascending_keys_sorted _ _ _ (ranges_range_keys _)
             (no_args_ascending c method)).
  rewrite <-no_args_signing_input.
  destruct (decide (AuthToken c = "")) as [He|Hne];
    unfold query_string, amp_pairs, pair_string, url.Get;
    rewrite !sign_lookup_api_sig;
    repeat (rewrite sign_lookup_ne by done);
    rewrite !no_args_lookup; simpl;
    [|rewrite (decide_False _ _ Hne)];
    rewrite QueryEscape_hex, !app_assoc_string;
    generalize (hex.EncodeToString
                  (md5.Sum (signing_input c (post_params c method ∅ ""))));
    intros s; reflexivity.
Qed.

Example post_url_echo :
  post_url bananas "rtm.test.echo" ∅ ""
  = "https://api.rememberthemilk.com/services/rest/?api_key=abc123&api_sig=6cafed5b82367638c09d2414baa5773e&method=rtm.test.echo&v=2".
Proof. by vm_compute. Qed.

Lemma post_url_query_witness :
  post_url bananas "rtm.test.echo" ∅ ""
  = "https://api.rememberthemilk.com/services/rest/?"
      +:+ query_string (sign bananas (post_params bananas "rtm.test.echo" ∅ ""))
            ["api_key"; "api_sig"; "method"; "v"].
Proof.
  apply (post_url_query bananas "rtm.test.echo" ∅ "").
  apply (no_args_ascending bananas "rtm.test.echo").
Defined.

(** *** Parameters cannot be added or split by their content *)

Lemma count_char_app (a : ascii) (s t : string) :
  count_char a (s +:+ t) = (count_char a s + count_char a t)%nat.
Proof.
  induction s as [|b s IH]; [done|].
  change (count_char a (String b (s +:+ t))
          = (count_char a (String b s) + count_char a t)%nat).
  simpl. rewrite IH. lia.
Qed.

(** An escaped character brings no ampersand and no equals sign. *)
Lemma QueryEscape_cons_count (a c : ascii) (rest : string) :
  a = "&"%char ∨ a = "="%char →
  count_char a (url.QueryEscape (String c rest)) = count_char a (url.QueryEscape rest).
Proof.
  intros [->| ->]; destruct c as [[] [] [] [] [] [] [] []]; reflexivity.
Qed.

Lemma QueryEscape_count (a : ascii) (s : string) :
  a = "&"%char ∨ a = "="%char → count_char a (url.QueryEscape s) = O.
Proof.
  intros Ha. induction s as [|c s IH]; [done|].
  by rewrite QueryEscape_cons_count.
Qed.

Lemma pair_string_count (v : Values) (k : string) :
  count_char "&" (pair_string v k) = O ∧ count_char "=" (pair_string v k) = 1%nat.
Proof.
  unfold pair_string. rewrite !count_char_app, !QueryEscape_count by auto. done.
Qed.

Lemma amp_pairs_count (v : Values) (ks : list string) :
  count_char "&" (amp_pairs v ks) = length ks
  ∧ count_char "=" (amp_pairs v ks) = length ks.
Proof.
  induction ks as [|k ks [IH1 IH2]]; [done|].
  destruct (pair_string_count v k) as [H1 H2].
  cbn [amp_pairs length]. rewrite !count_char_app, IH1, IH2, H1, H2. done.
Qed.

Lemma query_string_count (v : Values) (ks : list string) :
  count_char "&" (query_string v ks) = (length ks - 1)%nat
  ∧ count_char "=" (query_string v ks) = length ks.
Proof.
  destruct ks as [|k ks]; [done|].
  destruct (pair_string_count v k) as [H1 H2].
  destruct (amp_pairs_count v ks) as [H3 H4].
  cbn [query_string length]. rewrite !count_char_app, H1, H2, H3, H4.
  split; lia.
Qed.

Lemma sorted_keys_length (q : Values) :
  length (sort.Strings (range_keys q)) = size q.
Proof.
  rewrite Strings_Permutation. unfold range_keys.
  by rewrite length_fmap, length_map_to_list.
Qed.

(** X7.  Whatever the caller's keys and values contain, the URL that
    [post] requests has one equals sign for each parameter of the
    signed set and one ampersand between two of them: no key or value
    adds a parameter or splits one. *)
Theorem post_url_parameter_count (c : Client) (method : string) (args : Args)
    (format : string) :
  count_char "=" (post_url c method args format)
  = size (sign c (post_params c method args format))
  ∧ count_char "&" (post_url c method args format)
    = (size (sign c (post_params c method args format)) - 1)%nat.
Proof.
  rewrite post_url_sorted.
  rewrite !count_char_app.
  destruct (query_string_count (sign c (post_params c method args format))
              (sort.Strings (range_keys (sign c (post_params c method args format)))))
    as [-> ->].
  rewrite sorted_keys_length. done.
Qed.

Example post_url_hostile_value :
  post_url bananas "rtm.tasks.add" {["name" := "milk&api_key=x=y"]} ""
  = "https://api.rememberthemilk.com/services/rest/?api_key=abc123&api_sig=93d5010081e6cd5f9da3789b77e9914d&method=rtm.tasks.add&name=milk%26api_key%3Dx%3Dy&v=2".
Proof. by vm_compute. Qed.

(** ** What [post] does around its call of [Do] *)

(** The trace of [post], case by case. *)
Lemma post_trace (L : Lib) (c : Client) (ctx : Context) (method : string)
    (args : Args) (format : string) :
  let req := post_request c ctx method args format in
  fst (post L c ctx method args format)
  = match parse_error L (post_url c method args format) with
    | Some _ => []
    | None =>
        match (if DebugLogger c then DumpRequestOut L req else inl "") with
        | inr _ => []
        | inl breq =>
            (if DebugLogger c then [Logged breq] else [])
            ++ RoundTrip req ::
               match http.resp_of (http.Do (http_ L c) req) with
               | None => []
               | Some resp =>
                   (if DebugLogger c then
                      match DumpResponse L resp with
                      | inl bresp => [Logged bresp]
                      | inr _ => []
                      end
                    else []) ++ [Closed]
               end
        end
    end.
Proof.
  intros req. post_steps. destruct (parse_error L _) as [msg|]; [done|].
  fold (post_request c ctx method args format). fold req.
  destruct (DebugLogger c).
  - destruct (DumpRequestOut L req) as [breq|msg]; [|done]. simpl.
    destruct (http.Do (http_ L c) req) as [resp|[resp|] err]; simpl.
    + destruct (DumpResponse L resp) as [bresp|msg]; simpl; [|done].
      by destruct (decide (http.StatusCode resp ≠ 200)).
    + by destruct (DumpResponse L resp) as [bresp|msg].
    + done.
  - simpl. destruct (http.Do (http_ L c) req) as [resp|[resp|] err]; simpl.
    + by destruct (decide (http.StatusCode resp ≠ 200)).
    + done.
    + done.
Qed.

Lemma post_Do_calls (L : Lib) (c : Client) (ctx : Context) (method : string)
    (args : Args) (format : string) :
  Do_calls (fst (post L c ctx method args format)) = []
  ∨ parse_error L (post_url c method args format) = None
    ∧ Do_calls (fst (post L c ctx method args format))
      = [post_request c ctx method args format].
Proof.
  rewrite post_trace. destruct (parse_error L _) as [msg|]; [by left|].
  destruct (DebugLogger c).
  - destruct (DumpRequestOut L _) as [breq|msg]; [|by left].
    right. split; [done|].
    destruct (http.resp_of _) as [resp|]; [|done].
    by destruct (DumpResponse L resp).
  - right. split; [done|]. by destruct (http.resp_of _).
Qed.

(** X8.  [post] calls [Do] on the HTTP client at most once (it never
    tries again), and not at all for a URL that does not parse; the
    request it passes to [Do] is a POST of the signed URL, with nothing
    but the [User-Agent] header of this package and with the caller's
    context.  (What [Do] makes of the request, redirects included, is
    the library's.) *)
Theorem post_calls_Do_once (L : Lib) (c : Client) (ctx : Context)
    (method : string) (args : Args) (format : string) :
  (length (Do_calls (fst (post L c ctx method args format))) ≤ 1)%nat
  ∧ ∀ req, req ∈ Do_calls (fst (post L c ctx method args format)) →
      parse_error L (post_url c method args format) = None
      ∧ http.Method req = "POST"
      ∧ http.URL req = post_url c method args format
      ∧ http.Header req = [("User-Agent", "github.com/AlekSi/rtm")]
      ∧ http.Ctx req = Some ctx.
Proof.
  destruct (post_Do_calls L c ctx method args format) as [->|[Hp ->]].
  - split; [simpl; lia|]. intros req Hreq. by apply elem_of_nil in Hreq.
  - split; [simpl; lia|]. intros req Hreq.
    apply list_elem_of_singleton in Hreq as ->. done.
Qed.

Lemma post_calls_Do_once_witness :
  let c := sample_client (Some (server 200 (whole body_ok))) true in
  let req := post_request c Background "rtm.test.echo" ∅ "" in
  http.Method req = "POST"
  ∧ http.URL req = post_url c "rtm.test.echo" ∅ ""
  ∧ http.Header req = [("User-Agent", "github.com/AlekSi/rtm")]
  ∧ http.Ctx req = Some Background.
Proof.
  intros c req.
  destruct (post_calls_Do_once sample_lib c Background "rtm.test.echo" ∅ "")
    as [_ H].
  apply H.
  assert (Do_calls (fst (post sample_lib c Background "rtm.test.echo" ∅ "")) = [req])
    as -> by (by vm_compute).
  left.
Defined.

(** X9.  When [post] gets as far as calling [Do] and [Do] returns a
    response, with or without an error, the deferred
    [resp.Body.Close()] of [post] runs exactly once, after everything
    else that [post] does, whatever the status is and whether or not
    the response can be dumped; when [Do] returns no response, [post]
    makes no call of [Close].  (This is about the call that [post]
    itself makes: [httputil.DumpResponse] may have closed the body it
    read before.) *)
Theorem post_deferred_Close (L : Lib) (c : Client) (ctx : Context)
    (method : string) (args : Args) (format : string) :
  goes_out L c ctx method args format →
  match http.resp_of (http.Do (http_ L c) (post_request c ctx method args format)) with
  | Some _ => ∃ t, fst (post L c ctx method args format) = t ++ [Closed]
                   ∧ Closed ∉ t
  | None => Closed ∉ fst (post L c ctx method args format)
  end.
Proof.
  intros [Hp Hd]. rewrite post_trace, Hp.
  destruct (DebugLogger c).
  - destruct Hd as [breq ->]; [done|].
    destruct (http.resp_of _) as [resp|].
    + destruct (DumpResponse L resp) as [bresp|msg].
      * exists [Logged breq; RoundTrip (post_request c ctx method args format);
                Logged bresp]. split; [done|]. set_solver.
      * exists [Logged breq; RoundTrip (post_request c ctx method args format)].
        split; [done|]. set_solver.
    + set_solver.
  - destruct (http.resp_of _) as [resp|].
    + exists [RoundTrip (post_request c ctx method args format)].
      split; [done|]. set_solver.
    + set_solver.
Qed.

Lemma post_deferred_Close_witness :
  (∃ t, fst (post sample_lib (sample_client (Some (server 200 (whole body_ok))) true)
               Background "rtm.test.echo" ∅ "")
        = t ++ [Closed]
        ∧ Closed ∉ t)
  ∧ Closed ∉ fst (post sample_lib (sample_client None false)
                    Background "rtm.test.echo" ∅ "").
Proof.
  split.
  - apply (post_deferred_Close sample_lib
             (sample_client (Some (server 200 (whole body_ok))) true)
             Background "rtm.test.echo" ∅ "").
    split; [reflexivity|]. intros _. eexists. reflexivity.
  - apply (post_deferred_Close sample_lib (sample_client None false)
             Background "rtm.test.echo" ∅ "").
    split; [reflexivity|]. intros [=].
Defined.

(** ** The result of [post] and of [Call] *)

(** The result of [post], case by case. *)
Lemma post_result (L : Lib) (c : Client) (ctx : Context) (method : string)
    (args : Args) (format : string) :
  let req := post_request c ctx method args format in
  snd (post L c ctx method args format)
  = match parse_error L (post_url c method args format) with
    | Some msg => ("", Some (LibError net_url msg))
    | None =>
        match (if DebugLogger c then DumpRequestOut L req else inl "") with
        | inr msg => ("", Some (LibError httputil msg))
        | inl _ =>
            match (if DebugLogger c then
                     match http.resp_of (http.Do (http_ L c) req) with
                     | Some resp => DumpResponse L resp
                     | None => inl ""
                     end
                   else inl "") with
            | inr msg => ("", Some (LibError httputil msg))
            | inl _ =>
                match http.Do (http_ L c) req with
                | http.DoErr _ err => ("", Some (LibError net_http err))
                | http.DoOk resp =>
                    if decide (http.StatusCode resp ≠ 200) then
                      ("", Some (Errorf "HTTP status code %d"
                                   (OfInt (http.StatusCode resp))))
                    else ReadAll (http.RespBody resp)
                end
            end
        end
    end.
Proof.
  intros req. post_steps. destruct (parse_error L _) as [msg|]; [done|].
  fold (post_request c ctx method args format). fold req.
  destruct (DebugLogger c).
  - destruct (DumpRequestOut L req) as [breq|msg]; [|done]. simpl.
    destruct (http.Do (http_ L c) req) as [resp|[resp|] err]; simpl.
    + destruct (DumpResponse L resp) as [bresp|msg]; simpl; [|done].
      by destruct (decide (http.StatusCode resp ≠ 200)).
    + by destruct (DumpResponse L resp) as [bresp|msg].
    + done.
  - simpl. destruct (http.Do (http_ L c) req) as [resp|[resp|] err]; simpl.
    + by destruct (decide (http.StatusCode resp ≠ 200)).
    + done.
    + done.
Qed.

Lemma without_logger_request (c : Client) (ctx : Context) (method : string)
    (args : Args) (format : string) :
  post_request (without_logger c) ctx method args format
  = post_request c ctx method args format.
Proof. reflexivity. Qed.

(** X10.  The debug logger only listens: when the dumps of the request
    and of the response, if there is one, succeed, a call with the
    logger returns what the same call without the logger returns and
    calls [Do] with the same request; and a call without the logger
    logs nothing. *)
Theorem post_logger_transparent (L : Lib) (c : Client) (ctx : Context)
    (method : string) (args : Args) (format : string) :
  (∃ b, DumpRequestOut L (post_request c ctx method args format) = inl b) →
  (∀ resp,
     http.resp_of (http.Do (http_ L c) (post_request c ctx method args format))
     = Some resp →
     ∃ b, DumpResponse L resp = inl b) →
  snd (post L c ctx method args format)
  = snd (post L (without_logger c) ctx method args format)
  ∧ Do_calls (fst (post L c ctx method args format))
    = Do_calls (fst (post L (without_logger c) ctx method args format))
  ∧ logged (fst (post L (without_logger c) ctx method args format)) = [].
Proof.
  intros [breq Hq] Hr.
  rewrite !post_result, !post_trace, !without_logger_request.
  change (post_url (without_logger c) method args format)
    with (post_url c method args format).
  change (http_ L (without_logger c)) with (http_ L c).
  change (DebugLogger (without_logger c)) with false.
  destruct (parse_error L _) as [msg|]; [done|]. rewrite Hq.
  destruct (http.resp_of _) as [resp|] eqn:Hresp.
  - destruct (Hr resp eq_refl) as [bresp ->].
    destruct (DebugLogger c); done.
  - destruct (DebugLogger c); done.
Qed.

Lemma post_logger_transparent_witness :
  let c := sample_client (Some (server 200 (whole body_ok))) true in
  snd (post sample_lib c Background "rtm.test.echo" ∅ "")
  = snd (post sample_lib (without_logger c) Background "rtm.test.echo" ∅ "")
  ∧ Do_calls (fst (post sample_lib c Background "rtm.test.echo" ∅ ""))
    = Do_calls (fst (post sample_lib (without_logger c) Background "rtm.test.echo" ∅ ""))
  ∧ logged (fst (post sample_lib (without_logger c) Background "rtm.test.echo" ∅ "")) = [].
Proof.
  intros c.
  apply (post_logger_transparent sample_lib c Background "rtm.test.echo" ∅ "").
  - eexists. reflexivity.
  - intros resp [= <-]. eexists. reflexivity.
Defined.

(** X11.  When the request goes out and the transport returns an
    error, the call fails with that error, whatever response comes
    with it (even one with status 200 and a body that would decode)
    and whatever [xml.Unmarshal] would do, unless the debug logger is
    set and dumping that response fails. *)
Theorem Call_transport_error (L : Lib) (u : string -> rsp * option string)
    (c : Client) (ctx : Context) (method : string) (args : Args)
    (resp : option http.Response) (err : string) :
  goes_out L c ctx method args "" →
  http.Do (http_ L c) (post_request c ctx method args "") = http.DoErr resp err →
  (DebugLogger c = true → ∀ r, resp = Some r → ∃ b, DumpResponse L r = inl b) →
  snd (Call (with_Unmarshal L u) c ctx method args)
  = ("", Some (LibError net_http err)).
Proof.
  intros [Hp Hd] Hdo Hr. rewrite Call_result, post_with_Unmarshal, post_result.
  rewrite Hp, Hdo. simpl.
  destruct (DebugLogger c).
  - destruct Hd as [breq ->]; [done|].
    destruct resp as [r|]; [|done].
    by destruct (Hr eq_refl r eq_refl) as [b ->].
  - done.
Qed.

Lemma Call_transport_error_witness :
  snd (Call (with_Unmarshal sample_lib sample_Unmarshal)
         (sample_client
            (Some (canned (http.DoErr (Some (response 200 (whole body_ok)))
                             "stopped after 10 redirects")))
            true)
         Background "rtm.test.echo" ∅)
  = ("", Some (LibError net_http "stopped after 10 redirects")).
Proof.
  apply (Call_transport_error sample_lib sample_Unmarshal
           (sample_client
              (Some (canned (http.DoErr (Some (response 200 (whole body_ok)))
                               "stopped after 10 redirects")))
              true)
           Background "rtm.test.echo" ∅ (Some (response 200 (whole body_ok)))).
  - split; [reflexivity|]. intros _. eexists. reflexivity.
  - reflexivity.
  - intros _ r [= <-]. eexists. reflexivity.
Defined.

(** X12.  When the request goes out and the transport answers 200
    with a body that cannot be read to its end, the call fails with
    the error of the reading and [xml.Unmarshal] plays no part: the
    error comes from the dump of the response if the debug logger is
    set, and otherwise from [ioutil.ReadAll], in which case [post]
    returns the bytes read so far with the error and [Call] drops
    them. *)
Theorem Call_read_failure (L : Lib) (u : string -> rsp * option string)
    (c : Client) (ctx : Context) (method : string) (args : Args)
    (resp : http.Response) (msg : string) :
  goes_out L c ctx method args "" →
  http.Do (http_ L c) (post_request c ctx method args "") = http.DoOk resp →
  http.StatusCode resp = 200 →
  http.read_err (http.RespBody resp) = Some msg →
  snd (Call (with_Unmarshal L u) c ctx method args)
  = ("", Some (LibError (if DebugLogger c then httputil else io) msg))
  ∧ (DebugLogger c = false →
     snd (post L c ctx method args "")
     = (http.content (http.RespBody resp), Some (LibError io msg))).
Proof.
  intros [Hp Hd] Hdo Hs Hr. rewrite Call_result, post_with_Unmarshal, post_result.
  rewrite Hp, Hdo. simpl. unfold DumpResponse, ReadAll. rewrite Hr. simpl.
  destruct (DebugLogger c).
  - destruct Hd as [breq ->]; [done|]. done.
  - rewrite decide_False by (by intros []). done.
Qed.

Lemma Call_read_failure_witness :
  let c := sample_client (Some (server 200 (truncated "<rsp stat="))) false in
  snd (Call (with_Unmarshal sample_lib sample_Unmarshal) c Background "rtm.test.echo" ∅)
  = ("", Some (LibError io "unexpected EOF"))
  ∧ snd (post sample_lib c Background "rtm.test.echo" ∅ "")
    = ("<rsp stat=", Some (LibError io "unexpected EOF")).
Proof.
  intros c.
  destruct (Call_read_failure sample_lib sample_Unmarshal c Background
              "rtm.test.echo" ∅ (response 200 (truncated "<rsp stat="))
              "unexpected EOF") as [H1 H2].
  - split; [reflexivity|]. intros [=].
  - reflexivity.
  - reflexivity.
  - reflexivity.
  - split; [exact H1|]. by apply H2.
Defined.

(** [post] returns bytes without an error only from a response with
    status 200 whose body was read to its end. *)
Lemma post_success_inv (L : Lib) (c : Client) (ctx : Context) (method : string)
    (args : Args) (format b : string) :
  snd (post L c ctx method args format) = (b, None) →
  goes_out L c ctx method args format
  ∧ ∃ resp,
      http.Do (http_ L c) (post_request c ctx method args format) = http.DoOk resp
      ∧ http.StatusCode resp = 200
      ∧ http.RespBody resp = {| http.content := b; http.read_err := None |}
      ∧ (DebugLogger c = true → ∃ d, Response_Write L resp = inl d).
Proof.
  rewrite post_result. unfold goes_out.
  destruct (parse_error L _) as [msg|]; [done|].
  destruct (DebugLogger c) eqn:Hd.
  - destruct (DumpRequestOut L _) as [breq|msg]; [|done].
    destruct (http.Do (http_ L c) _) as [resp|resp err]; simpl.
    + unfold DumpResponse.
      destruct (http.RespBody resp) as [content [msg|]] eqn:Hb; simpl; [done|].
      destruct (Response_Write L resp) as [d|msg] eqn:Hw; [|done].
      destruct (decide (http.StatusCode resp ≠ 200)) as [|Hs]; [done|].
      unfold ReadAll. simpl. intros [= <-].
      split; [by eauto|]. exists resp. repeat split; eauto.
      by apply dec_stable.
    + by destruct resp as [r|]; [destruct (DumpResponse L r)|].
  - destruct (http.Do (http_ L c) _) as [resp|resp err]; simpl; [|done].
    destruct (decide (http.StatusCode resp ≠ 200)) as [|Hs]; [done|].
    unfold ReadAll. destruct (http.RespBody resp) as [content [msg|]] eqn:Hb;
      simpl; [done|].
    intros [= <-]. split; [done|]. exists resp. repeat split; [|done..].
    by apply dec_stable.
Qed.

(** X13.  [Call] returns a payload without an error only if the
    request went out, the transport answered without an error and with
    status 200, the body was read to its end and decoded without an
    error, it has no [err] element and its [stat] is [ok]; the payload
    is then the raw inner XML of the root. *)
Theorem Call_success_inv (L : Lib) (c : Client) (ctx : Context)
    (method : string) (args : Args) (p : string) :
  snd (Call L c ctx method args) = (p, None) →
  goes_out L c ctx method args ""
  ∧ ∃ resp r,
      http.Do (http_ L c) (post_request c ctx method args "") = http.DoOk resp
      ∧ http.StatusCode resp = 200
      ∧ http.read_err (http.RespBody resp) = None
      ∧ Unmarshal L (http.content (http.RespBody resp)) = (r, None)
      ∧ Err r = None
      ∧ Stat r = "ok"
      ∧ p = Inner r.
Proof.
  rewrite Call_result.
  destruct (snd (post L c ctx method args "")) as [b [e|]] eqn:Hpost; [done|].
  apply post_success_inv in Hpost as (Hg & resp & Hdo & Hs & Hb & _).
  unfold Call_body, Call_switch.
  destruct (Unmarshal L b) as [r [msg|]] eqn:Hu; [done|].
  destruct (Err r) as [e|] eqn:He; [done|].
  destruct (decide (Stat r ≠ "ok")) as [|Hst]; [done|].
  intros [= <-]. split; [done|]. exists resp, r. rewrite Hb. simpl.
  repeat split; try done. by apply dec_stable.
Qed.

Lemma Call_success_inv_witness :
  ∃ resp r,
    http.Do (http_ sample_lib (sample_client (Some (server 200 (whole body_ok))) true))
      (post_request (sample_client (Some (server 200 (whole body_ok))) true)
         Background "rtm.test.echo" ∅ "")
    = http.DoOk resp
    ∧ http.StatusCode resp = 200
    ∧ http.read_err (http.RespBody resp) = None
    ∧ Unmarshal sample_lib (http.content (http.RespBody resp)) = (r, None)
    ∧ Err r = None
    ∧ Stat r = "ok"
    ∧ "<x>1</x>" = Inner r.
Proof.
  apply (Call_success_inv sample_lib
           (sample_client (Some (server 200 (whole body_ok))) true)
           Background "rtm.test.echo" ∅ "<x>1</x>").
  by vm_compute.
Defined.

(** X14.  [Call] never returns bytes together with an error: whenever
    its error is not nil its payload is nil, also where [post] had
    bytes to return. *)
Theorem Call_payload_or_error (L : Lib) (c : Client) (ctx : Context)
    (method : string) (args : Args) (p : string) (e : error) :
  snd (Call L c ctx method args) = (p, Some e) → p = "".
Proof.
  rewrite Call_result.
  destruct (snd (post L c ctx method args "")) as [b [e'|]]; [by intros [= <- _]|].
  unfold Call_body, Call_switch.
  destruct (Unmarshal L b) as [r [msg|]]; [by intros [= <- _]|].
  destruct (Err r) as [e'|]; [by intros [= <- _]|].
  destruct (decide (Stat r ≠ "ok")); [by intros [= <- _]|done].
Qed.

Lemma Call_payload_or_error_witness :
  let c := sample_client (Some (server 200 (truncated "<rsp stat="))) false in
  fst (snd (post sample_lib c Background "rtm.test.echo" ∅ "")) = "<rsp stat="
  ∧ fst (snd (Call sample_lib c Background "rtm.test.echo" ∅)) = "".
Proof.
  intros c. split; [by vm_compute|].
  apply (Call_payload_or_error sample_lib c Background "rtm.test.echo" ∅
           (fst (snd (Call sample_lib c Background "rtm.test.echo" ∅)))
           (LibError io "unexpected EOF")).
  by vm_compute.
Defined.
